(** * Online-Drawing-App: the [DrawingApp] class of [app.js]

    A shallow embedding of the drawing application and of the part of the
    browser it talks to (the 2D canvas context, the [Image] objects it
    creates, the events it listens to), followed by the properties of its
    undo/redo history, of its shape tools and of its gesture state.

    Conventions of the embedding.
    - JavaScript numbers that hold coordinates are real numbers ([R]): the
      arithmetic of [app.js] is read exactly, without rounding.
    - The bitmap of the canvas is a display list: the colour the whole
      bitmap was last filled with (or nothing, after a full [clearRect])
      and the strokes painted since.  Two equal display lists are the same
      picture; the converse is not claimed.
    - [canvas.toDataURL()] is a lossless (PNG) encoding of the bitmap.
    - A context ignores a [strokeStyle] that does not parse as a CSS colour.
      The parser of the browser is not modelled: a stroke style records the
      string assigned and, unless that string is a colour for certain, what
      the context held before (see [Canvas.Style]).
    - Setting [img.src] never runs [img.onload] on the spot: the browser
      fires the load event from a later task.  The images whose load event
      is still to come are part of the state, and the load event is an
      event of its own, like a click. *)

From Stdlib Require Import Reals Lra List Ascii String ZArith Bool Lia.
Import ListNotations.

Local Open Scope string_scope.
Local Open Scope list_scope.
Local Open Scope R_scope.

(** ** The canvas *)

Module Canvas.

Record Point := mkPoint { x : R; y : R }.

(** The colour a context strokes with.  [Colour v] is the colour written
    [v].  [Attempt v prev] stands where [v] was assigned and nothing here
    tells whether [v] parses as a CSS colour: the context strokes with [v]
    if it does and, the assignment being ignored, as [prev] says if it does
    not.  Two equal styles are the same colour; the converse is not
    claimed. *)
Inductive Style :=
| Colour (v : string)
| Attempt (v : string) (prev : Style).

(** The stroke attributes of the context at the time of a stroke. *)
Record Pen := mkPen { strokeStyle : Style; lineWidth : Z; lineCap : string }.

(** The current path, as the calls that built it since [beginPath()]. *)
Inductive PathCmd :=
| MoveTo (p : Point)
| LineTo (p : Point)
| Arc (cx cy radius startAngle endAngle : R)
| ClosePath.

Inductive Paint :=
| StrokeRect (rx ry w h : R) (pen : Pen)
| StrokePath (path : list PathCmd) (pen : Pen).

(** [backdrop = None] is the transparent bitmap. *)
Record Pixels := mkPixels { backdrop : option string; paints : list Paint }.

(** What [toDataURL()] returns and what [img.src] takes. *)
Record DataURL := PNG { decode : Pixels }.

Record Ctx := mkCtx {
  fillStyle : string;
  pen : Pen;
  path : list PathCmd;
  pixels : Pixels
}.

(** A fresh canvas: transparent, with the default drawing state. *)
Definition fresh : Ctx :=
  mkCtx "#000000" (mkPen (Colour "#000000") 1 "butt") [] (mkPixels None []).

(** [ctx.fillStyle = v]; the application only ever assigns ['white']. *)
Definition set_fillStyle (v : string) (c : Ctx) : Ctx :=
  mkCtx v (pen c) (path c) (pixels c).

Definition is_hex_digit (c : ascii) : bool :=
  let n := nat_of_ascii c in
  ((48 <=? n) && (n <=? 57) || (65 <=? n) && (n <=? 70) ||
   (97 <=? n) && (n <=? 102))%nat.

Fixpoint all_hex (s : string) : bool :=
  match s with
  | EmptyString => true
  | String c r => is_hex_digit c && all_hex r
  end.

(** Strings that are CSS colours for certain: the keyword [white] and the
    form [#rrggbb], which is what a colour input delivers.  Many other
    strings are colours too. *)
Definition surely_a_color (v : string) : bool :=
  (v =? "white")%string ||
  match v with
  | String "#"%char r => (String.length r =? 6)%nat && all_hex r
  | _ => false
  end.

(** The stroke style after [ctx.strokeStyle = v].  Assigning the same
    doubtful string twice in a row leaves the context as the first
    assignment did. *)
Definition assign_style (v : string) (before : Style) : Style :=
  if surely_a_color v then Colour v
  else match before with
       | Attempt u _ => if (u =? v)%string then before else Attempt v before
       | Colour _ => Attempt v before
       end.

Arguments assign_style : simpl never.

Definition set_strokeStyle (v : string) (c : Ctx) : Ctx :=
  mkCtx (fillStyle c)
        (mkPen (assign_style v (strokeStyle (pen c)))
               (lineWidth (pen c)) (lineCap (pen c)))
        (path c) (pixels c).

(** [ctx.lineWidth = v]: zero, a negative number, NaN and the infinities
    (the last two are [None]) are ignored. *)
Definition set_lineWidth (v : option Z) (c : Ctx) : Ctx :=
  match v with
  | Some w =>
      if (0 <? w)%Z
      then mkCtx (fillStyle c) (mkPen (strokeStyle (pen c)) w (lineCap (pen c)))
                 (path c) (pixels c)
      else c
  | None => c
  end.

Definition set_lineCap (v : string) (c : Ctx) : Ctx :=
  mkCtx (fillStyle c) (mkPen (strokeStyle (pen c)) (lineWidth (pen c)) v)
        (path c) (pixels c).

Definition set_path (p : list PathCmd) (c : Ctx) : Ctx :=
  mkCtx (fillStyle c) (pen c) p (pixels c).

Definition set_pixels (px : Pixels) (c : Ctx) : Ctx :=
  mkCtx (fillStyle c) (pen c) (path c) px.

Definition paint (p : Paint) (c : Ctx) : Ctx :=
  set_pixels (mkPixels (backdrop (pixels c)) (paints (pixels c) ++ [p])) c.

(** [fillRect(0, 0, canvas.width, canvas.height)]: the whole bitmap takes
    the fill colour. *)
Definition fillRect_canvas (c : Ctx) : Ctx :=
  set_pixels (mkPixels (Some (fillStyle c)) []) c.

(** [clearRect(0, 0, canvas.width, canvas.height)] *)
Definition clearRect_canvas (c : Ctx) : Ctx :=
  set_pixels (mkPixels None []) c.

(** [drawImage(img, 0, 0)] for an image of the size of the canvas: an
    opaque image covers what was there, a transparent one is painted over
    it. *)
Definition drawImage (img : DataURL) (c : Ctx) : Ctx :=
  match backdrop (decode img) with
  | Some _ => set_pixels (decode img) c
  | None =>
      set_pixels (mkPixels (backdrop (pixels c))
                           (paints (pixels c) ++ paints (decode img))) c
  end.

Definition beginPath (c : Ctx) : Ctx := set_path [] c.
Definition moveTo (px py : R) (c : Ctx) : Ctx :=
  set_path (path c ++ [MoveTo (mkPoint px py)]) c.
Definition lineTo (px py : R) (c : Ctx) : Ctx :=
  set_path (path c ++ [LineTo (mkPoint px py)]) c.
Definition arc (cx cy r a0 a1 : R) (c : Ctx) : Ctx :=
  set_path (path c ++ [Arc cx cy r a0 a1]) c.

(** [closePath()] does nothing on a path without subpaths. *)
Definition closePath (c : Ctx) : Ctx :=
  match path c with
  | [] => c
  | _ => set_path (path c ++ [ClosePath]) c
  end.

Definition stroke (c : Ctx) : Ctx := paint (StrokePath (path c) (pen c)) c.

(** [strokeRect] paints at once and leaves the current path alone. *)
Definition strokeRect (rx ry w h : R) (c : Ctx) : Ctx :=
  paint (StrokeRect rx ry w h (pen c)) c.

Definition toDataURL (c : Ctx) : DataURL := PNG (pixels c).

End Canvas.

Import Canvas.

(** What an array gives at an index out of range.  The guards of the
    source keep every indexed read below in range. *)
Definition undefined : DataURL := PNG (mkPixels None []).

(** ** The application state *)

(** The fields of [this], and the two things of the page the class acts
    on besides the canvas: the images it has started to load and the
    files it has offered for download. *)
Record App := mkApp {
  ctx : Ctx;
  isDrawing : bool;
  currentTool : string;
  color : string;
  lineWidth : option Z;
  startPoint : option Point;
  history : list DataURL;
  redoStack : list DataURL;
  loading : list DataURL;
  downloads : list (string * DataURL)
}.

Definition with_ctx (f : Ctx -> Ctx) (s : App) : App :=
  mkApp (f (ctx s)) (isDrawing s) (currentTool s) (color s) (lineWidth s)
        (startPoint s) (history s) (redoStack s) (loading s) (downloads s).

Definition set_isDrawing (b : bool) (s : App) : App :=
  mkApp (ctx s) b (currentTool s) (color s) (lineWidth s)
        (startPoint s) (history s) (redoStack s) (loading s) (downloads s).

Definition set_currentTool (t : string) (s : App) : App :=
  mkApp (ctx s) (isDrawing s) t (color s) (lineWidth s)
        (startPoint s) (history s) (redoStack s) (loading s) (downloads s).

Definition set_color (v : string) (s : App) : App :=
  mkApp (ctx s) (isDrawing s) (currentTool s) v (lineWidth s)
        (startPoint s) (history s) (redoStack s) (loading s) (downloads s).

Definition set_lineWidth (v : option Z) (s : App) : App :=
  mkApp (ctx s) (isDrawing s) (currentTool s) (color s) v
        (startPoint s) (history s) (redoStack s) (loading s) (downloads s).

Definition set_startPoint (p : option Point) (s : App) : App :=
  mkApp (ctx s) (isDrawing s) (currentTool s) (color s) (lineWidth s)
        p (history s) (redoStack s) (loading s) (downloads s).

Definition set_history (h : list DataURL) (s : App) : App :=
  mkApp (ctx s) (isDrawing s) (currentTool s) (color s) (lineWidth s)
        (startPoint s) h (redoStack s) (loading s) (downloads s).

Definition set_redoStack (r : list DataURL) (s : App) : App :=
  mkApp (ctx s) (isDrawing s) (currentTool s) (color s) (lineWidth s)
        (startPoint s) (history s) r (loading s) (downloads s).

Definition set_loading (l : list DataURL) (s : App) : App :=
  mkApp (ctx s) (isDrawing s) (currentTool s) (color s) (lineWidth s)
        (startPoint s) (history s) (redoStack s) l (downloads s).

Definition set_downloads (d : list (string * DataURL)) (s : App) : App :=
  mkApp (ctx s) (isDrawing s) (currentTool s) (color s) (lineWidth s)
        (startPoint s) (history s) (redoStack s) (loading s) d.

(** The picture on the canvas. *)
Definition surface (s : App) : Pixels := pixels (ctx s).

(** ** Methods run in a state monad with exceptions

    A method that throws leaves the state as it was at the throw. *)

Inductive Completion (A : Type) :=
| Normal (a : A)
| Throw (error : string).

Arguments Normal {A} a.
Arguments Throw {A} error.

Definition JS (A : Type) : Type := App -> Completion A * App.

Definition ret {A} (a : A) : JS A := fun s => (Normal a, s).

Definition bind {A B} (m : JS A) (k : A -> JS B) : JS B :=
  fun s =>
    match m s with
    | (Normal a, s') => k a s'
    | (Throw e, s') => (Throw e, s')
    end.

Definition throw {A} (e : string) : JS A := fun s => (Throw e, s).
Definition read {A} (f : App -> A) : JS A := fun s => (Normal (f s), s).
Definition update (f : App -> App) : JS unit := fun s => (Normal tt, f s).
Definition on_ctx (f : Ctx -> Ctx) : JS unit := update (with_ctx f).

Notation "x <- m ;; k" := (bind m (fun x => k))
  (at level 61, m at next level, right associativity).
Notation "m ;; k" := (bind m (fun _ => k))
  (at level 61, right associativity).

(** The state a method leaves, and whether it threw. *)
Definition after {A} (m : JS A) (s : App) : App := snd (m s).

Definition completes {A} (m : JS A) (s : App) : Prop :=
  exists a, fst (m s) = Normal a.

(** [this.startPoint.x] and [this.startPoint.y]: reading a property of
    [null] throws a TypeError. *)
Definition startPoint_x : JS R :=
  p <- read startPoint ;;
  match p with
  | Some q => ret (x q)
  | None => throw "TypeError"
  end.

Definition startPoint_y : JS R :=
  p <- read startPoint ;;
  match p with
  | Some q => ret (y q)
  | None => throw "TypeError"
  end.

(** [ctx.arc] throws an IndexSizeError on a negative radius. *)
Definition ctx_arc (cx cy r a0 a1 : R) : JS unit :=
  if Rlt_dec r 0 then throw "IndexSizeError" else on_ctx (arc cx cy r a0 a1).

(** [const img = new Image(); img.onload = ...; img.src = src]: the image
    starts to load; its [onload] runs when the browser delivers the load
    event. *)
Definition load_image (src : DataURL) : JS unit :=
  update (fun s => set_loading (loading s ++ [src]) s).

(** The body of the three [img.onload] arrow functions (they are the same
    text in [restoreLastState], [undo] and [redo]). *)
Definition onload (img : DataURL) : JS unit :=
  on_ctx clearRect_canvas ;;
  on_ctx (drawImage img).

(** ** The methods of [DrawingApp] *)

Definition saveCanvasState : JS unit :=
  currentState <- read (fun s => toDataURL (ctx s)) ;;
  update (fun s => set_history (history s ++ [currentState]) s) ;;
  update (set_redoStack []).

Definition initCanvas : JS unit :=
  on_ctx (set_fillStyle "white") ;;
  on_ctx fillRect_canvas ;;
  saveCanvasState.

Definition restoreLastState : JS unit :=
  h <- read history ;;
  if (0 <? List.length h)%nat then
    let lastState := last h undefined in
    load_image lastState
  else ret tt.

Definition setTool (tool : string) : JS unit :=
  update (set_currentTool tool).

(** The position of a mouse event and the bounding rectangle of the canvas
    at the time of the event. *)
Record MouseEvent := mkMouse { clientX : R; clientY : R }.
Record DOMRect := mkRect { left : R; top : R }.

Definition is_freehand (tool : string) : bool :=
  (tool =? "pencil")%string || (tool =? "eraser")%string.

Definition startDrawing (rect : DOMRect) (e : MouseEvent) : JS unit :=
  update (set_isDrawing true) ;;
  let x := clientX e - left rect in
  let y := clientY e - top rect in
  update (set_startPoint (Some (mkPoint x y))) ;;
  tool <- read currentTool ;;
  if is_freehand tool then
    on_ctx beginPath ;;
    on_ctx (moveTo x y)
  else ret tt.

Definition drawRectangle (x y : R) (isSquare : bool) : JS unit :=
  restoreLastState ;;
  on_ctx beginPath ;;
  if isSquare then
    sx <- startPoint_x ;;
    sy <- startPoint_y ;;
    let size := Rmin (Rabs (x - sx)) (Rabs (y - sy)) in
    sx' <- startPoint_x ;;
    let dirX := if Rgt_dec x sx' then 1 else -1 in
    sy' <- startPoint_y ;;
    let dirY := if Rgt_dec y sy' then 1 else -1 in
    ax <- startPoint_x ;;
    ay <- startPoint_y ;;
    on_ctx (strokeRect ax ay (size * dirX) (size * dirY))
  else
    ax <- startPoint_x ;;
    ay <- startPoint_y ;;
    sx <- startPoint_x ;;
    sy <- startPoint_y ;;
    on_ctx (strokeRect ax ay (x - sx) (y - sy)).

Definition drawCircle (x y : R) : JS unit :=
  restoreLastState ;;
  sx <- startPoint_x ;;
  sy <- startPoint_y ;;
  let radius := sqrt ((x - sx) ^ 2 + (y - sy) ^ 2) in
  on_ctx beginPath ;;
  ax <- startPoint_x ;;
  ay <- startPoint_y ;;
  ctx_arc ax ay radius 0 (2 * PI) ;;
  on_ctx stroke.

Definition draw (rect : DOMRect) (e : MouseEvent) : JS unit :=
  drawing <- read isDrawing ;;
  if negb drawing then ret tt else
  let x := clientX e - left rect in
  let y := clientY e - top rect in
  tool <- read currentTool ;;
  c <- read color ;;
  on_ctx (Canvas.set_strokeStyle (if (tool =? "eraser")%string then "white" else c)) ;;
  w <- read lineWidth ;;
  on_ctx (Canvas.set_lineWidth w) ;;
  on_ctx (set_lineCap "round") ;;
  tool <- read currentTool ;;
  if is_freehand tool then
    on_ctx (lineTo x y) ;;
    on_ctx stroke
  else if (tool =? "rectangle")%string then drawRectangle x y false
  else if (tool =? "square")%string then drawRectangle x y true
  else if (tool =? "circle")%string then drawCircle x y
  else ret tt.

Definition drawing_tools : list string :=
  ["pencil"; "eraser"; "rectangle"; "square"; "circle"].

Definition includes (l : list string) (v : string) : bool :=
  existsb (String.eqb v) l.

Definition stopDrawing : JS unit :=
  drawing <- read isDrawing ;;
  if drawing then
    on_ctx closePath ;;
    update (set_isDrawing false) ;;
    tool <- read currentTool ;;
    (if includes drawing_tools tool then saveCanvasState else ret tt) ;;
    update (set_startPoint None)
  else ret tt.

Definition undo : JS unit :=
  h <- read history ;;
  if (1 <? List.length h)%nat then
    let currentState := last h undefined in
    update (set_history (removelast h)) ;;
    update (fun s => set_redoStack (redoStack s ++ [currentState]) s) ;;
    h' <- read history ;;
    let prevState := last h' undefined in
    load_image prevState
  else ret tt.

Definition redo : JS unit :=
  r <- read redoStack ;;
  if (0 <? List.length r)%nat then
    let nextState := last r undefined in
    update (set_redoStack (removelast r)) ;;
    update (fun s => set_history (history s ++ [nextState]) s) ;;
    load_image nextState
  else ret tt.

Definition clearCanvas : JS unit :=
  on_ctx (set_fillStyle "white") ;;
  on_ctx fillRect_canvas ;;
  saveCanvasState.

Definition downloadCanvas : JS unit :=
  href <- read (fun s => toDataURL (ctx s)) ;;
  update (fun s => set_downloads (downloads s ++ [("drawing.png", href)]) s).

(** ** The page: construction and events *)

(** [new DrawingApp()]: the constructor sets the fields and calls
    [initCanvas()]; [bindEvents()] registers the handlers of [handle]
    below. *)
Definition constructor : App :=
  after initCanvas
    (mkApp fresh false "pencil" "#000000" (Some 5%Z) None [] [] [] []).

(** The five tool buttons of [bindEvents]. *)
Inductive ToolButton :=
| pencilTool | eraserTool | rectangleTool | squareTool | circleTool.

Definition tool_of (b : ToolButton) : string :=
  match b with
  | pencilTool => "pencil"
  | eraserTool => "eraser"
  | rectangleTool => "rectangle"
  | squareTool => "square"
  | circleTool => "circle"
  end.

(** The events the page delivers to the application.  [change_lineWidth]
    carries [parseInt(e.target.value, 10)], [None] when that is NaN or an
    infinity (no number of digits, or too many).  [load i] is the
    load event of the image at position [i] among those still loading. *)
Inductive Event :=
| click_tool (b : ToolButton)
| change_color (value : string)
| change_lineWidth (value : option Z)
| click_undo
| click_redo
| click_clear
| click_download
| mousedown (rect : DOMRect) (e : MouseEvent)
| mousemove (rect : DOMRect) (e : MouseEvent)
| mouseup
| mouseout
| load (i : nat).

Fixpoint remove_nth {A} (i : nat) (l : list A) : list A :=
  match l, i with
  | [], _ => []
  | _ :: t, O => t
  | a :: t, S j => a :: remove_nth j t
  end.

Definition handle (ev : Event) : JS unit :=
  match ev with
  | click_tool b => setTool (tool_of b)
  | change_color v => update (set_color v)
  | change_lineWidth v => update (set_lineWidth v)
  | click_undo => undo
  | click_redo => redo
  | click_clear => clearCanvas
  | click_download => downloadCanvas
  | mousedown rect e => startDrawing rect e
  | mousemove rect e => draw rect e
  | mouseup => stopDrawing
  | mouseout => stopDrawing
  | load i =>
      imgs <- read loading ;;
      match nth_error imgs i with
      | Some img =>
          update (set_loading (remove_nth i imgs)) ;;
          onload img
      | None => ret tt
      end
  end.

(** One turn of the event loop.  An exception that escapes a handler is
    reported by the browser and the page goes on from the state reached. *)
Definition step (s : App) (ev : Event) : App := after (handle ev) s.

Definition run (evs : list Event) (s : App) : App := fold_left step evs s.

Inductive reachable : App -> Prop :=
| reach_constructor : reachable constructor
| reach_step s ev : reachable s -> reachable (step s ev).

(** Every image still loading finishes, in the order the loads were
    started. *)
Fixpoint deliver (n : nat) (s : App) : App :=
  match n with
  | O => s
  | S k => deliver k (step s (load 0))
  end.

Definition settle (s : App) : App := deliver (List.length (loading s)) s.

(** The snapshot of the canvas as [initCanvas] leaves it. *)
Definition blank : DataURL := PNG (mkPixels (Some "white") []).

(** ** Notions used in the statements *)

(** The part of the state that is not the canvas and not the images on
    their way: the fields of the gesture, of the style and of the history. *)
Definition fields (s : App) :=
  (isDrawing s, currentTool s, color s, lineWidth s, startPoint s,
   history s, redoStack s, downloads s).

(** What every reachable state satisfies (see [reachable_Inv]). *)
Record Inv (s : App) : Prop := mkInv {
  inv_history : exists rest, history s = blank :: rest;
  inv_tool : exists b, currentTool s = tool_of b;
  inv_anchor : isDrawing s = true -> exists p, startPoint s = Some p;
  inv_idle : isDrawing s = false -> startPoint s = None
}.

(** The method [m] called [n] times in a row. *)
Fixpoint times (n : nat) (m : JS unit) (s : App) : App :=
  match n with
  | O => s
  | S k => after m (times k m s)
  end.

(** What [undo] does to the array [history]. *)
Definition pop_floor (h : list DataURL) : list DataURL :=
  if (1 <? List.length h)%nat then removelast h else h.

(** A small session used to exercise the statements: one freehand stroke. *)
Definition origin : DOMRect := mkRect 0 0.

Definition sketch : list Event :=
  [mousedown origin (mkMouse 0 0); mousemove origin (mkMouse 10 10); mouseup].

(** The position of a mouse event on the canvas, as the handlers compute
    it. *)
Definition cursor (rect : DOMRect) (e : MouseEvent) : Point :=
  mkPoint (clientX e - left rect) (clientY e - top rect).

(** The state once [draw] has set the stroke attributes of the context. *)
Definition styled (s : App) : App :=
  with_ctx (set_lineCap "round")
    (with_ctx (Canvas.set_lineWidth (lineWidth s))
       (with_ctx (set_strokeStyle
                    (if (currentTool s =? "eraser")%string then "white" else color s))
          s)).






(** A rectangle gesture with five pointer moves, released before any of
    the restores started by the moves has completed ... *)
Definition five_moves : list Event :=
  [click_tool rectangleTool;
   mousedown origin (mkMouse 0 0);
   mousemove origin (mkMouse 10 10);
   mousemove origin (mkMouse 20 20);
   mousemove origin (mkMouse 30 30);
   mousemove origin (mkMouse 40 40);
   mousemove origin (mkMouse 50 50);
   mouseup].

(** ... and the same gesture with each restore completing right after the
    move that started it. *)
Definition five_moves_prompt : list Event :=
  [click_tool rectangleTool;
   mousedown origin (mkMouse 0 0);
   mousemove origin (mkMouse 10 10); load 0;
   mousemove origin (mkMouse 20 20); load 0;
   mousemove origin (mkMouse 30 30); load 0;
   mousemove origin (mkMouse 40 40); load 0;
   mousemove origin (mkMouse 50 50); load 0;
   mouseup].

(** The rectangle from (0,0) to (w,w) in the default style. *)
Definition box (w : R) : Paint :=
  StrokeRect 0 0 w w (mkPen (Colour "#000000") 5 "round").

(** A rectangle drawn and released before its restore completes: the
    canvas ends blank while the top of [history] holds the rectangle. *)
Definition quick_rectangle : list Event :=
  [click_tool rectangleTool;
   mousedown origin (mkMouse 0 0);
   mousemove origin (mkMouse 10 10);
   mouseup;
   load 0].


(** The canvas shows the snapshot on top of [history]. *)
Definition shows_top (s : App) : Prop :=
  surface s = decode (last (history s) undefined).

(** The tool selected after a sequence of events, given the tool selected
    before: the last tool button clicked, if any. *)
Definition selected (evs : list Event) (tool : string) : string :=
  fold_left (fun t ev => match ev with click_tool b => tool_of b | _ => t end)
            evs tool.

Definition is_tool_click (ev : Event) : bool :=
  match ev with click_tool _ => true | _ => false end.

Definition is_release (ev : Event) : bool :=
  match ev with mouseup | mouseout => true | _ => false end.

Definition no_tool_click (evs : list Event) : bool :=
  forallb (fun ev => negb (is_tool_click ev)) evs.

Definition no_release (evs : list Event) : bool :=
  forallb (fun ev => negb (is_release ev)) evs.


(** The line width of the context after [ctx.lineWidth = v]. *)
Definition width_after (v : option Z) (before : Z) : Z :=
  match v with
  | Some w => if (0 <? w)%Z then w else before
  | None => before
  end.

(** The pen of a pointer move in state [s] that asks for [colour]: the
    colour assigned over the one the context held, the selected width over
    the one the context had, round caps. *)
Definition pen_after (colour : string) (s : App) : Pen :=
  mkPen (assign_style colour (strokeStyle (pen (ctx s))))
        (width_after (lineWidth s) (Canvas.lineWidth (pen (ctx s))))
        "round".

(** The behaviour of each tool: what a pointer move at [cur] paints in
    state [s], whose anchor is [a].
    - pencil: a stroke, in the selected colour, of the current path
      extended by a line to [cur];
    - eraser: the same stroke in white;
    - rectangle: the rectangle from [a] to [cur];
    - square: the rectangle at [a] whose two sides have the length
      min(|dx|, |dy|) and point the way of dx and of dy;
    - circle: the full circle of centre [a] through [cur]. *)
Definition painted_by (tool : string) (s : App) (cur : Point) (p : Paint) : Prop :=
  exists a, startPoint s = Some a /\
  let dx := x cur - x a in
  let dy := y cur - y a in
  ((tool = "pencil" /\
    p = StrokePath (path (ctx s) ++ [LineTo cur]) (pen_after (color s) s)) \/
   (tool = "eraser" /\
    p = StrokePath (path (ctx s) ++ [LineTo cur]) (pen_after "white" s)) \/
   (tool = "rectangle" /\
    p = StrokeRect (x a) (y a) dx dy (pen_after (color s) s)) \/
   (tool = "square" /\
    exists w h,
      p = StrokeRect (x a) (y a) w h (pen_after (color s) s) /\
      Rabs w = Rmin (Rabs dx) (Rabs dy) /\ Rabs h = Rmin (Rabs dx) (Rabs dy) /\
      0 <= w * dx /\ 0 <= h * dy) \/
   (tool = "circle" /\
    p = StrokePath [Arc (x a) (y a) (dist_euc (x a) (y a) (x cur) (y cur))
                        0 (2 * PI)]
                   (pen_after (color s) s))).


(** ** Further notions *)

(** Every snapshot the two stacks hold, oldest first: [history], then
    [redoStack] from its top down. *)
Definition timeline (s : App) : list DataURL := history s ++ rev (redoStack s).

(** The events that never push a snapshot: everything but the end of a
    gesture and the clear button. *)
Definition commits_nothing (ev : Event) : bool :=
  match ev with
  | mouseup | mouseout | click_clear => false
  | _ => true
  end.

(** The load events of the images on their way, the newest first. *)
Fixpoint deliver_newest_first (n : nat) (s : App) : App :=
  match n with
  | O => s
  | S k => deliver_newest_first k (step s (load (List.length (loading s) - 1)))
  end.

Definition settle_newest_first (s : App) : App :=
  deliver_newest_first (List.length (loading s)) s.

Definition is_shape (tool : string) : bool :=
  (tool =? "rectangle")%string || (tool =? "square")%string ||
  (tool =? "circle")%string.

(** A picture on the white backdrop: no pixel of it is transparent. *)
Definition on_white (p : Pixels) : Prop := backdrop p = Some "white".

(** The canvas and every image the application holds are on the white
    backdrop. *)
Record AllOpaque (s : App) : Prop := mkAllOpaque {
  opaque_surface : on_white (surface s);
  opaque_history : Forall (fun u => on_white (decode u)) (history s);
  opaque_redoStack : Forall (fun u => on_white (decode u)) (redoStack s);
  opaque_loading : Forall (fun u => on_white (decode u)) (loading s);
  opaque_downloads : Forall (fun d => on_white (decode (snd d))) (downloads s)
}.

(** The non-empty prefixes of a list, shortest first. *)
Fixpoint prefixes {A} (l : list A) : list (list A) :=
  match l with
  | [] => []
  | a :: r => [a] :: map (cons a) (prefixes r)
  end.

(** The pen a paint was stroked with. *)
Definition pen_of (p : Paint) : Pen :=
  match p with
  | StrokeRect _ _ _ _ q => q
  | StrokePath _ q => q
  end.

(** *** The tool buttons of the page

    [setTool] also moves the class [active] among the five tool buttons.
    The page is the class list of each element, by id; [None] is what
    [document.getElementById] answers with [null]. *)
Definition Document := string -> option (list string).

Definition classList_remove (tok : string) (cl : list string) : list string :=
  filter (fun c => negb (c =? tok)%string) cl.

Definition classList_add (tok : string) (cl : list string) : list string :=
  if existsb (String.eqb tok) cl then cl else cl ++ [tok].

(** [document.getElementById(id).classList.<f>]: a TypeError when there is
    no such element. *)
Definition on_element (id : string) (f : list string -> list string)
  (doc : Document) : Completion unit * Document :=
  match doc id with
  | Some cl =>
      (Normal tt, fun i => if (i =? id)%string then Some (f cl) else doc i)
  | None => (Throw "TypeError", doc)
  end.

(** The id [`${t}Tool`]. *)
Definition button_id (t : string) : string := (t ++ "Tool")%string.

(** The [forEach] of [setTool]. *)
Fixpoint remove_active (ts : list string) (doc : Document)
  : Completion unit * Document :=
  match ts with
  | [] => (Normal tt, doc)
  | t :: r =>
      match on_element (button_id t) (classList_remove "active") doc with
      | (Normal _, d) => remove_active r d
      | (Throw e, d) => (Throw e, d)
      end
  end.

(** [setTool(tool)] on the page and the application together. *)
Definition setTool_page (tool : string) (st : Document * App)
  : Completion unit * (Document * App) :=
  let s := after (setTool tool) (snd st) in
  match remove_active ["pencil"; "eraser"; "rectangle"; "square"; "circle"]
          (fst st) with
  | (Normal _, d) =>
      match on_element (button_id tool) (classList_add "active") d with
      | (c, d') => (c, (d', s))
      end
  | (Throw e, d) => (Throw e, (d, s))
  end.

(** The five tool buttons are on the page. *)
Definition has_tool_buttons (doc : Document) : Prop :=
  forall b, doc (button_id (tool_of b)) <> None.

(** ** Basic facts *)

Ltac js_unfold :=
  unfold step, after, handle, draw, drawRectangle, drawCircle, stopDrawing,
    startDrawing, undo, redo, clearCanvas, downloadCanvas, saveCanvasState,
    restoreLastState, initCanvas, setTool, onload, load_image, ctx_arc,
    startPoint_x, startPoint_y, bind, ret, read, update, on_ctx, throw in *.

(** Evaluation of a closed run, the real numbers left as they stand. *)
Ltac js_eval :=
  lazy -[Rminus Rplus Rmult Ropp Rinv Rdiv IZR Rmin Rabs Rgt_dec Rlt_dec
         sqrt PI pow].

Ltac js_cases :=
  repeat (cbn in *;
          match goal with
          | |- context [if ?c then _ else _] => destruct c eqn:?
          | |- context [match ?c with Some _ => _ | None => _ end] =>
              destruct c eqn:?
          end).


Lemma fields_inv s t :
  fields s = fields t ->
  isDrawing s = isDrawing t /\ currentTool s = currentTool t /\
  color s = color t /\ lineWidth s = lineWidth t /\
  startPoint s = startPoint t /\ history s = history t /\
  redoStack s = redoStack t /\ downloads s = downloads t.
Proof. unfold fields; intros H; injection H; intros; repeat split; assumption. Qed.

Lemma constructor_eq :
  constructor =
  mkApp (mkCtx "white" (mkPen (Colour "#000000") 1 "butt") [] (decode blank))
        false "pencil" "#000000" (Some 5%Z) None [blank] [] [] [].
Proof. reflexivity. Qed.

Lemma run_app evs1 evs2 s : run (evs1 ++ evs2) s = run evs2 (run evs1 s).
Proof. apply fold_left_app. Qed.

Lemma run_snoc evs ev s : run (evs ++ [ev]) s = step (run evs s) ev.
Proof. apply run_app. Qed.

Lemma reachable_run evs s : reachable s -> reachable (run evs s).
Proof.
  revert s; induction evs as [|ev evs IH]; intros s Hs; [exact Hs|].
  apply IH, reach_step, Hs.
Qed.

Lemma reachable_trace s : reachable s -> exists evs, s = run evs constructor.
Proof.
  induction 1 as [|s ev _ [evs ->]].
  - exists []; reflexivity.
  - exists (evs ++ [ev]); symmetry; apply run_snoc.
Qed.

(** *** The history stack *)

Lemma saveCanvasState_eq s :
  saveCanvasState s =
  (Normal tt,
   set_redoStack [] (set_history (history s ++ [toDataURL (ctx s)]) s)).
Proof. reflexivity. Qed.

Lemma clearCanvas_eq s :
  clearCanvas s =
  saveCanvasState (with_ctx fillRect_canvas (with_ctx (set_fillStyle "white") s)).
Proof. reflexivity. Qed.

Lemma undo_floor s :
  (List.length (history s) <= 1)%nat -> undo s = (Normal tt, s).
Proof.
  intros H; js_unfold.
  destruct (Nat.ltb_spec 1 (List.length (history s))); [lia | reflexivity].
Qed.

Lemma undo_pop s h top :
  history s = h ++ [top] -> h <> [] ->
  undo s =
  (Normal tt,
   set_loading (loading s ++ [last h undefined])
     (set_redoStack (redoStack s ++ [top]) (set_history h s))).
Proof.
  intros H Hh; js_unfold.
  destruct (Nat.ltb_spec 1 (List.length (history s))) as [_|Hle].
  - cbn. rewrite H, last_last, removelast_last. reflexivity.
  - exfalso. rewrite H, length_app in Hle. destruct h; [congruence | cbn in Hle; lia].
Qed.

Lemma redo_empty s : redoStack s = [] -> redo s = (Normal tt, s).
Proof. intros H; js_unfold; rewrite H; reflexivity. Qed.

Lemma redo_pop s r next :
  redoStack s = r ++ [next] ->
  redo s =
  (Normal tt,
   set_loading (loading s ++ [next])
     (set_history (history s ++ [next]) (set_redoStack r s))).
Proof.
  intros H; js_unfold.
  destruct (Nat.ltb_spec 0 (List.length (redoStack s))) as [_|Hle].
  - cbn. rewrite H, last_last, removelast_last. reflexivity.
  - exfalso. rewrite H, length_app in Hle. cbn in Hle; lia.
Qed.

(** A non-empty list ends in its last element. *)
Lemma snoc_view {A} (l : list A) : l <> [] -> exists h t, l = h ++ [t].
Proof.
  intros H; destruct (exists_last H) as (h & t & ->); eauto.
Qed.

(** *** Pointer moves and image loads touch only the canvas *)

Lemma draw_fields rect e s : fields (after (draw rect e) s) = fields s.
Proof. js_unfold; js_cases; reflexivity. Qed.

Lemma load_fields i s : fields (step s (load i)) = fields s.
Proof. js_unfold; js_cases; reflexivity. Qed.

Lemma draw_idle rect e s :
  isDrawing s = false -> draw rect e s = (Normal tt, s).
Proof. intros H; unfold draw, bind, read; rewrite H; reflexivity. Qed.

Lemma stopDrawing_idle s :
  isDrawing s = false -> stopDrawing s = (Normal tt, s).
Proof. intros H; unfold stopDrawing, bind, read; rewrite H; reflexivity. Qed.

Lemma onload_surface img s : surface (after (onload img) s) = decode img.
Proof.
  js_unfold; unfold surface; cbn.
  unfold drawImage; cbn.
  destruct img as [[[c|] ps]]; reflexivity.
Qed.

(** *** What every reachable state satisfies *)


Lemma Inv_constructor : Inv constructor.
Proof.
  rewrite constructor_eq; split; cbn.
  - exists []; reflexivity.
  - exists pencilTool; reflexivity.
  - discriminate.
  - reflexivity.
Qed.

Lemma Inv_fields s t : fields t = fields s -> Inv s -> Inv t.
Proof.
  intros H [Hh Ht Ha Hn].
  apply fields_inv in H as (Hd & Hc & _ & _ & Hp & Hi & _).
  split; [rewrite Hi | rewrite Hc | rewrite Hd, Hp | rewrite Hd, Hp]; assumption.
Qed.

Lemma Inv_undo s : Inv s -> Inv (after undo s).
Proof.
  intros [[rest Hh] Ht Ha Hn]; unfold after.
  destruct rest as [|a rest].
  - rewrite undo_floor by (rewrite Hh; cbn; lia).
    split; eauto.
  - destruct (@snoc_view _ (a :: rest)) as (h & top & E); [discriminate|].
    rewrite (undo_pop s (blank :: h) top);
      [| rewrite Hh, E; reflexivity | discriminate].
    split; cbn; eauto.
Qed.

Lemma Inv_redo s : Inv s -> Inv (after redo s).
Proof.
  intros [[rest Hh] Ht Ha Hn]; unfold after.
  destruct (redoStack s) as [|a r] eqn:Hr.
  - rewrite redo_empty by assumption. split; eauto.
  - destruct (@snoc_view _ (a :: r)) as (r' & next & E); [discriminate|].
    rewrite (redo_pop s r' next) by congruence.
    split; cbn; eauto.
    exists (rest ++ [next]); rewrite Hh; reflexivity.
Qed.

Lemma tool_of_drawing b : includes drawing_tools (tool_of b) = true.
Proof. destruct b; reflexivity. Qed.

Lemma Inv_step s ev : Inv s -> Inv (step s ev).
Proof.
  intros HI.
  destruct ev;
    try (apply Inv_undo, HI); try (apply Inv_redo, HI);
    try (apply Inv_fields with s; [apply draw_fields || apply load_fields | exact HI]).
  all: destruct HI as [[rest Hh] [tb Ht] Ha Hn].
  all: js_unfold; try rewrite Ht; try rewrite tool_of_drawing.
  all: js_cases.
  all: split; cbn; try discriminate; eauto.
  all: try (rewrite Hh; eexists; reflexivity).
Qed.

Lemma reachable_Inv s : reachable s -> Inv s.
Proof.
  induction 1; [apply Inv_constructor | apply Inv_step; assumption].
Qed.

(** *** Delivering the load events *)

Lemma load_head s img rest :
  loading s = img :: rest ->
  step s (load 0) = after (onload img) (set_loading rest s).
Proof. intros H; js_unfold; rewrite H; reflexivity. Qed.

Lemma onload_loading img s : loading (after (onload img) s) = loading s.
Proof. reflexivity. Qed.

Lemma onload_fields img s : fields (after (onload img) s) = fields s.
Proof. reflexivity. Qed.

Lemma deliver_all l : forall s,
  loading s = l ->
  loading (deliver (List.length l) s) = [] /\
  fields (deliver (List.length l) s) = fields s /\
  surface (deliver (List.length l) s) =
    match l with [] => surface s | _ => decode (last l undefined) end.
Proof.
  induction l as [|img rest IH]; intros s H; cbn [List.length deliver].
  - auto.
  - rewrite (load_head s img rest H).
    destruct (IH (after (onload img) (set_loading rest s))) as (Hl & Hf & Hs);
      [reflexivity|].
    split; [exact Hl|]. split; [rewrite Hf; reflexivity|].
    rewrite Hs. destruct rest as [|img' rest']; [apply onload_surface | reflexivity].
Qed.

Lemma settle_loading s : loading (settle s) = [].
Proof. apply (deliver_all (loading s) s eq_refl). Qed.

Lemma settle_fields s : fields (settle s) = fields s.
Proof. apply (deliver_all (loading s) s eq_refl). Qed.

Lemma settle_history s : history (settle s) = history s.
Proof. apply (fields_inv _ _ (settle_fields s)). Qed.

Lemma settle_redoStack s : redoStack (settle s) = redoStack s.
Proof. apply (fields_inv _ _ (settle_fields s)). Qed.

(** Once every load event has come, in order, the canvas shows the image
    whose load was started last. *)
Lemma settle_surface s l img :
  loading s = l ++ [img] -> surface (settle s) = decode img.
Proof.
  intros H. unfold settle.
  destruct (deliver_all (loading s) s eq_refl) as (_ & _ & Hs).
  rewrite Hs, H, last_last. destruct l; reflexivity.
Qed.


Lemma reachable_settle s : reachable s -> reachable (settle s).
Proof.
  unfold settle. generalize (List.length (loading s)) as n.
  intros n; revert s; induction n as [|n IH]; intros s Hs; cbn; [exact Hs|].
  apply IH, reach_step, Hs.
Qed.

(** *** Undo, repeated *)



Lemma undo_history s : history (after undo s) = pop_floor (history s).
Proof.
  js_unfold; unfold pop_floor.
  destruct (1 <? List.length (history s))%nat; reflexivity.
Qed.

Lemma pop_floor_cons a rest :
  pop_floor (a :: rest) = a :: removelast rest.
Proof.
  unfold pop_floor; destruct rest as [|b rest]; reflexivity.
Qed.

Lemma undo_iter_history n : forall s rest,
  history s = blank :: rest ->
  history (times n undo s) =
  blank :: firstn (List.length rest - n) rest.
Proof.
  induction n as [|n IH]; intros s rest H.
  - cbn. rewrite Nat.sub_0_r, firstn_all. exact H.
  - cbn [times]. rewrite undo_history, (IH s rest H), pop_floor_cons.
    f_equal.
    destruct (Nat.le_gt_cases (List.length rest) n) as [Hle|Hgt].
    + replace (List.length rest - n)%nat with 0%nat by lia.
      replace (List.length rest - S n)%nat with 0%nat by lia. reflexivity.
    + replace (List.length rest - n)%nat with (S (List.length rest - S n)) by lia.
      apply removelast_firstn. lia.
Qed.

Lemma undo_iter_fields_floor n : forall s,
  (List.length (history s) <= 1)%nat -> times n undo s = s.
Proof.
  induction n as [|n IH]; intros s H; cbn; [reflexivity|].
  rewrite (IH s H). unfold after. rewrite undo_floor by exact H. reflexivity.
Qed.

(** After at least one undo that took effect, the image whose load was
    started last is the new top of [history]. *)
Lemma undo_iter_loading n : forall s rest,
  history s = blank :: rest -> rest <> [] -> (0 < n)%nat ->
  exists l,
    loading (times n undo s) =
    l ++ [last (history (times n undo s)) undefined].
Proof.
  induction n as [|n IH]; intros s rest H Hne Hn; [lia|].
  cbn [times].
  set (t := times n undo s).
  assert (Ht : history t = blank :: firstn (List.length rest - n) rest)
    by (apply undo_iter_history, H).
  destruct (firstn (List.length rest - n) rest) as [|a r] eqn:E.
  - (* the floor was reached before: this undo does nothing *)
    assert (Hfl : (List.length (history t) <= 1)%nat) by (rewrite Ht; cbn; lia).
    unfold after at 1 2. rewrite (undo_floor t Hfl). cbn [snd].
    destruct n as [|n'].
    + exfalso. cbn in E. rewrite Nat.sub_0_r, firstn_all in E. congruence.
    + apply (IH s rest H Hne). lia.
  - destruct (@snoc_view _ (a :: r)) as (h & top & E'); [discriminate|].
    unfold after at 1 2.
    rewrite (undo_pop t (blank :: h) top);
      [| rewrite Ht, E'; reflexivity | discriminate].
    cbn. eexists; reflexivity.
Qed.

(** *** No handler throws in a reachable state *)

Lemma draw_completes rect e s : Inv s -> fst (draw rect e s) = Normal tt.
Proof.
  intros [_ _ Ha _].
  destruct (isDrawing s) eqn:Hd; [|rewrite draw_idle by exact Hd; reflexivity].
  destruct (Ha eq_refl) as [p Hp].
  js_unfold. rewrite Hd. cbn. rewrite ?Hp.
  js_cases; try rewrite Hp in *; try reflexivity; try discriminate.
  all: repeat match goal with
         | H : Some _ = Some _ |- _ => injection H as <-
         end.
  all: match goal with
       | H : sqrt _ < 0 |- _ => exfalso; apply (Rlt_not_le _ _ H), sqrt_pos
       | _ => idtac
       end.
Qed.

Lemma handle_completes ev s : Inv s -> fst (handle ev s) = Normal tt.
Proof.
  intros HI.
  destruct ev; try (apply draw_completes, HI).
  all: js_unfold; js_cases; reflexivity.
Qed.

(** The model does throw where the source would: a pointer move of the
    rectangle tool with the flag set and no anchor. *)
Lemma draw_throws_without_anchor :
  fst (draw origin (mkMouse 1 1)
         (set_currentTool "rectangle" (set_isDrawing true constructor)))
  = Throw "TypeError".
Proof. reflexivity. Qed.

(** The end of a gesture, spelled out. *)
Lemma stopDrawing_commit s :
  isDrawing s = true -> includes drawing_tools (currentTool s) = true ->
  stopDrawing s =
  (Normal tt,
   set_startPoint None
     (set_redoStack []
        (set_history (history s ++ [PNG (surface s)])
           (set_isDrawing false (with_ctx closePath s))))).
Proof.
  intros Hd Ht.
  unfold stopDrawing, bind, read, update, on_ctx, ret. rewrite Hd.
  cbn -[includes drawing_tools closePath saveCanvasState].
  rewrite Ht. unfold saveCanvasState, bind, read, update, surface. cbn.
  unfold closePath. destruct (path (ctx s)); reflexivity.
Qed.

(** Undo down to the floor, then every restore delivered. *)
Lemma undo_to_floor s rest n :
  history s = blank :: rest -> (List.length rest <= n)%nat ->
  history (times n undo s) = [blank] /\
  (rest <> [] -> surface (settle (times n undo s)) = decode blank).
Proof.
  intros Hh Hn.
  assert (Hfloor : history (times n undo s) = [blank]).
  { rewrite (undo_iter_history n s rest Hh).
    replace (List.length rest - n)%nat with 0%nat by lia. reflexivity. }
  split; [exact Hfloor|].
  intros Hne.
  destruct (undo_iter_loading n s rest Hh Hne) as [l Hl].
  - destruct rest; [congruence | cbn in Hn; lia].
  - rewrite (settle_surface _ l _ Hl), Hfloor. reflexivity.
Qed.

Lemma sketch_reachable : reachable (run sketch constructor).
Proof. apply reachable_run, reach_constructor. Qed.

(** ** The history stack *)

(** C1 (undo floor).  In every state the application can reach, [history]
    is not empty.  [undo()] on a history that holds only the initial entry
    changes nothing and starts no restore; otherwise it moves the top of
    [history] onto [redoStack] and starts the restore of the new top.
    However many times undo is called, [history] is never empty, and from
    [length history - 1] calls on it is the initial blank snapshot alone;
    when at least one of these calls took effect, the canvas shows the
    blank snapshot once the restores have completed. *)
Theorem undo_floor_keeps_initial_snapshot (s : App) (Hs : reachable s) :
  history s <> [] /\
  (List.length (history s) = 1%nat -> undo s = (Normal tt, s)) /\
  (forall h cur, history s = h ++ [cur] -> h <> [] ->
     fst (undo s) = Normal tt /\
     history (after undo s) = h /\
     redoStack (after undo s) = redoStack s ++ [cur] /\
     loading (after undo s) = loading s ++ [last h undefined]) /\
  (forall n, history (times n undo s) <> []) /\
  (forall n, (List.length (history s) - 1 <= n)%nat ->
     history (times n undo s) = [blank]) /\
  (forall n, (2 <= List.length (history s))%nat ->
     (List.length (history s) - 1 <= n)%nat ->
     surface (settle (times n undo s)) = decode blank).
Proof.
  destruct (reachable_Inv s Hs) as [[rest Hh] _ _ _].
  assert (Hlen : List.length (history s) = S (List.length rest))
    by (rewrite Hh; reflexivity).
  split; [rewrite Hh; discriminate|].
  split; [intros H1; apply undo_floor; lia|].
  split; [|split; [|split]].
  - intros h cur H Hne. unfold after.
    rewrite (undo_pop s h cur H Hne). repeat split; reflexivity.
  - intros n; rewrite (undo_iter_history n s rest Hh); discriminate.
  - intros n Hn. apply (undo_to_floor s rest n Hh). lia.
  - intros n H2 Hn. apply (undo_to_floor s rest n Hh); [lia|].
    intros ->; cbn in Hlen; lia.
Qed.

Lemma undo_floor_keeps_initial_snapshot_witness :
  history (times 7 undo (run sketch constructor)) = [blank] /\
  surface (settle (times 7 undo (run sketch constructor))) = decode blank.
Proof.
  pose proof (undo_floor_keeps_initial_snapshot _ sketch_reachable)
    as (_ & _ & _ & _ & Hfloor & Hsurface).
  split; [apply Hfloor | apply Hsurface]; cbn; lia.
Defined.

(** C2 (redo invalidation).  Whatever the two stacks hold, a push onto
    [history] that is not part of undo or redo leaves [redoStack] empty:
    this holds of [saveCanvasState] itself, of the clear button, and of the
    end of a gesture (pointer up, or the pointer leaving the canvas). *)
Theorem push_empties_redoStack (s : App) (Hs : reachable s) :
  (redoStack (after saveCanvasState s) = [] /\
   history (after saveCanvasState s) = history s ++ [toDataURL (ctx s)]) /\
  (redoStack (step s click_clear) = [] /\
   history (step s click_clear) = history s ++ [PNG (mkPixels (Some "white") [])]) /\
  (isDrawing s = true ->
   redoStack (step s mouseup) = [] /\
   redoStack (step s mouseout) = [] /\
   history (step s mouseup) = history s ++ [PNG (surface s)] /\
   history (step s mouseout) = history s ++ [PNG (surface s)]).
Proof.
  split; [split; reflexivity|]. split; [split; reflexivity|].
  intros Hd; destruct (reachable_Inv s Hs) as [_ [b Ht] _ _].
  unfold step, after, handle.
  rewrite stopDrawing_commit by (rewrite ?Ht; auto using tool_of_drawing).
  repeat split; reflexivity.
Qed.

Lemma push_empties_redoStack_witness :
  redoStack (run (sketch ++ [click_undo; mousedown origin (mkMouse 3 3)]) constructor)
    <> [] /\
  redoStack
    (step (run (sketch ++ [click_undo; mousedown origin (mkMouse 3 3)]) constructor)
          mouseup) = [].
Proof.
  split; [cbn; discriminate|].
  destruct (push_empties_redoStack
              (run (sketch ++ [click_undo; mousedown origin (mkMouse 3 3)]) constructor)
              (reachable_run _ _ reach_constructor)) as (_ & _ & Hgesture).
  destruct (Hgesture eq_refl) as (Hup & _).
  exact Hup.
Defined.

(** ** The gesture state *)

(** C9 (idle pointer events).  A pointer move when no gesture is active,
    and a pointer up (or the pointer leaving the canvas) when no gesture is
    active, return normally and leave the whole state as it was: the
    canvas, the gesture fields, [history], [redoStack] and the images on
    their way. *)
Theorem idle_pointer_events_do_nothing
  (s : App) (Hidle : isDrawing s = false) (rect : DOMRect) (e : MouseEvent) :
  handle (mousemove rect e) s = (Normal tt, s) /\
  handle mouseup s = (Normal tt, s) /\
  handle mouseout s = (Normal tt, s).
Proof.
  cbn [handle]. split; [apply draw_idle, Hidle|].
  split; apply stopDrawing_idle, Hidle.
Qed.

Lemma idle_pointer_events_do_nothing_witness :
  step (run sketch constructor) (mousemove origin (mkMouse 40 2)) =
    run sketch constructor /\
  step (run sketch constructor) mouseup = run sketch constructor.
Proof.
  destruct (idle_pointer_events_do_nothing (run sketch constructor) eq_refl
              origin (mkMouse 40 2)) as (Hmove & Hup & _).
  unfold step, after. rewrite Hmove, Hup. split; reflexivity.
Defined.

(** C10 (anchor while drawing).  In every reachable state the anchor
    [startPoint] is set exactly when [isDrawing] is: pointer down sets both,
    the end of the gesture clears both.  Hence no handler throws; in
    particular a pointer move of the rectangle, square or circle tool never
    reads a property of [null]. *)
Theorem anchor_present_while_drawing (s : App) (Hs : reachable s) :
  (isDrawing s = true -> exists p, startPoint s = Some p) /\
  (isDrawing s = false -> startPoint s = None) /\
  (forall ev, fst (handle ev s) = Normal tt).
Proof.
  pose proof (reachable_Inv s Hs) as HI.
  split; [apply HI|]. split; [apply HI|].
  intros ev; apply handle_completes, HI.
Qed.

Lemma anchor_present_while_drawing_witness :
  startPoint (run [click_tool circleTool; mousedown origin (mkMouse 3 4)] constructor)
    <> None /\
  fst (handle (mousemove origin (mkMouse 6 8))
         (run [click_tool circleTool; mousedown origin (mkMouse 3 4)] constructor))
    = Normal tt.
Proof.
  pose proof (anchor_present_while_drawing _
                (reachable_run [click_tool circleTool; mousedown origin (mkMouse 3 4)]
                   _ reach_constructor)) as (Hset & _ & Hok).
  split; [|apply Hok].
  destruct (Hset eq_refl) as [p ->]. discriminate.
Defined.

(** ** The shape tools *)

Lemma restoreLastState_eq s :
  restoreLastState s =
  (Normal tt,
   match history s with
   | [] => s
   | _ => set_loading (loading s ++ [last (history s) undefined]) s
   end).
Proof. js_unfold. destruct (history s); reflexivity. Qed.

Lemma restoreLastState_surface s : surface (after restoreLastState s) = surface s.
Proof.
  unfold after; rewrite restoreLastState_eq; destruct (history s); reflexivity.
Qed.

Lemma restoreLastState_ctx s : ctx (after restoreLastState s) = ctx s.
Proof.
  unfold after; rewrite restoreLastState_eq; destruct (history s); reflexivity.
Qed.

(** A pointer move of the square tool. *)
Lemma draw_square rect e s a :
  isDrawing s = true -> currentTool s = "square" -> startPoint s = Some a ->
  let size := Rmin (Rabs (x (cursor rect e) - x a)) (Rabs (y (cursor rect e) - y a)) in
  let dirX := if Rgt_dec (x (cursor rect e)) (x a) then 1 else -1 in
  let dirY := if Rgt_dec (y (cursor rect e)) (y a) then 1 else -1 in
  step s (mousemove rect e) =
  with_ctx (strokeRect (x a) (y a) (size * dirX) (size * dirY))
    (with_ctx beginPath (after restoreLastState (styled s))).
Proof.
  intros Hd Ht Ha. unfold styled. js_unfold. rewrite Hd. cbn. rewrite Ht. cbn.
  destruct (history s); repeat (progress (cbn; rewrite ?Ha)); reflexivity.
Qed.

(** A pointer move of the rectangle tool. *)
Lemma draw_rectangle rect e s a :
  isDrawing s = true -> currentTool s = "rectangle" -> startPoint s = Some a ->
  step s (mousemove rect e) =
  with_ctx (strokeRect (x a) (y a)
              (x (cursor rect e) - x a) (y (cursor rect e) - y a))
    (with_ctx beginPath (after restoreLastState (styled s))).
Proof.
  intros Hd Ht Ha. unfold styled. js_unfold. rewrite Hd. cbn. rewrite Ht. cbn.
  destruct (history s); repeat (progress (cbn; rewrite ?Ha)); reflexivity.
Qed.

(** A pointer move of the circle tool. *)
Lemma draw_circle rect e s a :
  isDrawing s = true -> currentTool s = "circle" -> startPoint s = Some a ->
  let radius :=
    sqrt ((x (cursor rect e) - x a) ^ 2 + (y (cursor rect e) - y a) ^ 2) in
  step s (mousemove rect e) =
  with_ctx stroke
    (with_ctx (arc (x a) (y a) radius 0 (2 * PI))
       (with_ctx beginPath (after restoreLastState (styled s)))).
Proof.
  intros Hd Ht Ha. unfold styled. js_unfold. rewrite Hd. cbn -[pow PI].
  rewrite Ht. cbn -[pow PI].
  destruct (history s); repeat (progress (cbn -[pow PI]; rewrite ?Ha)).
  all: destruct (Rlt_dec _ 0) as [Hneg|_];
    [exfalso; apply (Rlt_not_le _ _ Hneg), sqrt_pos | reflexivity].
Qed.

(** A pointer move of the pencil or of the eraser. *)
Lemma draw_freehand rect e s :
  isDrawing s = true -> is_freehand (currentTool s) = true ->
  step s (mousemove rect e) =
  with_ctx stroke
    (with_ctx (lineTo (x (cursor rect e)) (y (cursor rect e))) (styled s)).
Proof.
  intros Hd Ht. unfold styled. js_unfold. rewrite Hd. cbn -[is_freehand].
  rewrite Ht. reflexivity.
Qed.

Lemma styled_surface s : surface (styled s) = surface s.
Proof.
  unfold styled, surface; cbn.
  unfold Canvas.set_lineWidth.
  destruct (lineWidth s) as [w|]; [destruct (0 <? w)%Z|]; reflexivity.
Qed.

Lemma Rmin_abs_nonneg u v : 0 <= Rmin (Rabs u) (Rabs v).
Proof. apply Rmin_glb; apply Rabs_pos. Qed.

(** C6 (square tool).  A pointer move of the square tool strokes one
    rectangle at the anchor whose width and height both have the magnitude
    min(|dx|, |dy|) of the raw deltas from the anchor to the cursor, the
    width pointing the way of dx and the height the way of dy.  With the
    anchor at (0,0) and the cursor at (30,-10) the rectangle is 10 wide and
    -10 high: a square of side 10 towards positive x and negative y. *)
Theorem square_tool_side
  (s : App) (rect : DOMRect) (e : MouseEvent) (a : Point)
  (Hd : isDrawing s = true) (Ht : currentTool s = "square")
  (Ha : startPoint s = Some a) :
  let dx := x (cursor rect e) - x a in
  let dy := y (cursor rect e) - y a in
  let m := Rmin (Rabs dx) (Rabs dy) in
  exists w h,
    paints (surface (step s (mousemove rect e))) =
      paints (surface s) ++ [StrokeRect (x a) (y a) w h (pen (ctx (styled s)))] /\
    Rabs w = m /\ Rabs h = m /\
    (0 < dx -> w = m) /\ (dx < 0 -> w = - m) /\
    (0 < dy -> h = m) /\ (dy < 0 -> h = - m) /\
    (x a = 0 -> y a = 0 -> x (cursor rect e) = 30 -> y (cursor rect e) = -10 ->
     w = 10 /\ h = -10).
Proof.
  intros dx dy m.
  pose proof (Rmin_abs_nonneg dx dy) as Hm. fold m in Hm.
  rewrite (draw_square rect e s a Hd Ht Ha). cbv zeta. fold dx dy m.
  set (dirX := if Rgt_dec (x (cursor rect e)) (x a) then 1 else -1).
  set (dirY := if Rgt_dec (y (cursor rect e)) (y a) then 1 else -1).
  assert (HX : (0 < dx -> dirX = 1) /\ (dx <= 0 -> dirX = -1)).
  { unfold dirX, dx. destruct (Rgt_dec (x (cursor rect e)) (x a));
      split; intros; lra. }
  assert (HY : (0 < dy -> dirY = 1) /\ (dy <= 0 -> dirY = -1)).
  { unfold dirY, dy. destruct (Rgt_dec (y (cursor rect e)) (y a));
      split; intros; lra. }
  assert (HaX : Rabs (m * dirX) = m).
  { destruct (Rlt_le_dec 0 dx) as [H|H];
      [rewrite (proj1 HX H), Rmult_1_r | rewrite (proj2 HX H)].
    - apply Rabs_right; lra.
    - replace (m * -1) with (- m) by lra. rewrite Rabs_Ropp. apply Rabs_right; lra. }
  assert (HaY : Rabs (m * dirY) = m).
  { destruct (Rlt_le_dec 0 dy) as [H|H];
      [rewrite (proj1 HY H), Rmult_1_r | rewrite (proj2 HY H)].
    - apply Rabs_right; lra.
    - replace (m * -1) with (- m) by lra. rewrite Rabs_Ropp. apply Rabs_right; lra. }
  exists (m * dirX), (m * dirY).
  split.
  { unfold surface; cbn. rewrite restoreLastState_ctx.
    fold (surface (styled s)). rewrite styled_surface. reflexivity. }
  split; [exact HaX|]. split; [exact HaY|].
  split; [intros H; rewrite (proj1 HX H); lra|].
  split; [intros H; rewrite (proj2 HX) by lra; lra|].
  split; [intros H; rewrite (proj1 HY H); lra|].
  split; [intros H; rewrite (proj2 HY) by lra; lra|].
  intros Hax Hay Hcx Hcy.
  assert (Em : m = 10).
  { unfold m, dx, dy. rewrite Hax, Hay, Hcx, Hcy.
    replace (30 - 0) with 30 by lra. replace (-10 - 0) with (- (10)) by lra.
    rewrite Rabs_Ropp, !Rabs_right by lra. apply Rmin_right; lra. }
  rewrite (proj1 HX) by (unfold dx; lra).
  rewrite (proj2 HY) by (unfold dy; lra).
  rewrite Em; split; lra.
Qed.

Lemma square_tool_side_witness :
  exists w h,
    paints (surface
              (run [click_tool squareTool; mousedown origin (mkMouse 0 0);
                    mousemove origin (mkMouse 30 (-10))] constructor)) =
    [StrokeRect (0 - 0) (0 - 0) w h (mkPen (Colour "#000000") 5 "round")] /\
    w = 10 /\ h = -10.
Proof.
  destruct (square_tool_side
              (run [click_tool squareTool; mousedown origin (mkMouse 0 0)] constructor)
              origin (mkMouse 30 (-10)) (mkPoint (0 - 0) (0 - 0))
              eq_refl eq_refl eq_refl)
    as (w & h & Hp & _ & _ & _ & _ & _ & _ & Hex).
  exists w, h. split; [exact Hp|].
  apply Hex; cbn; lra.
Defined.

(** C7 (circle tool).  A pointer move of the circle tool strokes (it does
    not fill) one full circle whose centre is the anchor and whose radius is
    the Euclidean distance from the anchor to the cursor.  With the anchor
    at (50,50) and the cursor at (53,54) the radius is 5. *)
Theorem circle_tool_radius
  (s : App) (rect : DOMRect) (e : MouseEvent) (a : Point)
  (Hd : isDrawing s = true) (Ht : currentTool s = "circle")
  (Ha : startPoint s = Some a) :
  exists r,
    paints (surface (step s (mousemove rect e))) =
      paints (surface s) ++
      [StrokePath [Arc (x a) (y a) r 0 (2 * PI)] (pen (ctx (styled s)))] /\
    r = dist_euc (x a) (y a) (x (cursor rect e)) (y (cursor rect e)) /\
    0 <= r /\
    r * r = (x (cursor rect e) - x a) ^ 2 + (y (cursor rect e) - y a) ^ 2 /\
    (x a = 50 -> y a = 50 -> x (cursor rect e) = 53 -> y (cursor rect e) = 54 ->
     r = 5).
Proof.
  rewrite (draw_circle rect e s a Hd Ht Ha). cbv zeta.
  set (q := (x (cursor rect e) - x a) ^ 2 + (y (cursor rect e) - y a) ^ 2).
  assert (Hq : 0 <= q)
    by (unfold q; apply Rplus_le_le_0_compat; apply pow2_ge_0).
  exists (sqrt q).
  split.
  { unfold surface; cbn -[PI]. rewrite restoreLastState_ctx.
    fold (surface (styled s)). rewrite styled_surface. reflexivity. }
  split.
  { unfold dist_euc, q. f_equal. unfold Rsqr. ring. }
  split; [apply sqrt_pos|].
  split; [apply sqrt_sqrt, Hq|].
  intros Hax Hay Hcx Hcy.
  replace q with (Rsqr 5) by (unfold q, Rsqr; rewrite Hax, Hay, Hcx, Hcy; ring).
  apply sqrt_Rsqr; lra.
Qed.

Lemma circle_tool_radius_witness :
  exists r,
    paints (surface
              (run [click_tool circleTool; mousedown origin (mkMouse 50 50);
                    mousemove origin (mkMouse 53 54)] constructor)) =
    [StrokePath [Arc (50 - 0) (50 - 0) r 0 (2 * PI)] (mkPen (Colour "#000000") 5 "round")] /\
    r = 5.
Proof.
  destruct (circle_tool_radius
              (run [click_tool circleTool; mousedown origin (mkMouse 50 50)] constructor)
              origin (mkMouse 53 54) (mkPoint (50 - 0) (50 - 0))
              eq_refl eq_refl eq_refl)
    as (r & Hp & _ & _ & _ & Hex).
  exists r. split; [exact Hp|].
  apply Hex; cbn; lra.
Defined.

(** ** Gestures and the length of the history *)








(** ** Shape previews *)

(** A preview frame is stroked on the canvas as the previous frame left
    it: the restore that [drawRectangle] starts has not happened when
    [strokeRect] runs. *)
Lemma rectangle_preview_paints_over rect e s a :
  isDrawing s = true -> currentTool s = "rectangle" -> startPoint s = Some a ->
  paints (surface (step s (mousemove rect e))) =
    paints (surface s) ++
    [StrokeRect (x a) (y a) (x (cursor rect e) - x a) (y (cursor rect e) - y a)
       (pen (ctx (styled s)))] /\
  (history s <> [] ->
   loading (step s (mousemove rect e)) = loading s ++ [last (history s) undefined]).
Proof.
  intros Hd Ht Ha. rewrite (draw_rectangle rect e s a Hd Ht Ha). split.
  - unfold surface; cbn. rewrite restoreLastState_ctx.
    fold (surface (styled s)). rewrite styled_surface. reflexivity.
  - intros Hne. cbn. unfold after. rewrite restoreLastState_eq.
    unfold styled. cbn. destruct (history s); [congruence | reflexivity].
Qed.

(** C3 (preview frames), evaluated on a rectangle gesture of five moves.
    One snapshot is committed in either schedule.  Released before the
    restores complete, the committed snapshot holds all five preview
    rectangles and the canvas, once the restores have completed, none.
    With every restore completing right after its move, the committed
    snapshot holds no rectangle and neither does the canvas. *)
Theorem preview_restore_comes_after_stroke :
  List.length (history (run five_moves constructor)) = 2%nat /\
  paints (decode (last (history (run five_moves constructor)) undefined)) =
    [box 10; box 20; box 30; box 40; box 50] /\
  surface (settle (run five_moves constructor)) = decode blank /\
  history (run five_moves_prompt constructor) = [blank; blank] /\
  surface (run five_moves_prompt constructor) = decode blank.
Proof.
  split; [reflexivity|]. split.
  { js_eval. repeat f_equal; lra. }
  split; [reflexivity|]. split; reflexivity.
Qed.

(** ** Undo and redo as inverses *)






(** ** The tool of a gesture *)

Lemma step_currentTool s ev :
  currentTool (step s ev) =
  match ev with click_tool b => tool_of b | _ => currentTool s end.
Proof.
  destruct ev;
    try (apply (fields_inv _ _ (draw_fields _ _ s)));
    try (apply (fields_inv _ _ (load_fields _ s)));
    js_unfold; js_cases; reflexivity.
Qed.

Lemma run_currentTool evs : forall s,
  currentTool (run evs s) = selected evs (currentTool s).
Proof.
  induction evs as [|ev evs IH]; intros s; [reflexivity|].
  cbn [run fold_left]. fold (run evs (step s ev)).
  rewrite IH, step_currentTool. unfold selected at 2. cbn [fold_left].
  destruct ev; reflexivity.
Qed.

Lemma selected_no_tool_click evs : forall tool,
  no_tool_click evs = true -> selected evs tool = tool.
Proof.
  induction evs as [|ev evs IH]; intros tool H; [reflexivity|].
  cbn in H. apply andb_prop in H as [Hev H].
  unfold selected; cbn [fold_left]. fold (selected evs).
  destruct ev; try discriminate Hev; apply IH, H.
Qed.

Lemma step_isDrawing s ev :
  is_release ev = false -> isDrawing s = true -> isDrawing (step s ev) = true.
Proof.
  intros Hev Hd.
  destruct ev; try discriminate Hev;
    try (rewrite <- Hd; apply (fields_inv _ _ (draw_fields _ _ s)));
    try (rewrite <- Hd; apply (fields_inv _ _ (load_fields _ s)));
    js_unfold; js_cases; auto.
Qed.

Lemma run_isDrawing evs : forall s,
  no_release evs = true -> isDrawing s = true -> isDrawing (run evs s) = true.
Proof.
  induction evs as [|ev evs IH]; intros s H Hd; [exact Hd|].
  cbn in H. apply andb_prop in H as [Hev H].
  cbn [run fold_left]. apply IH; [exact H|].
  apply step_isDrawing; [apply negb_true_iff, Hev | exact Hd].
Qed.

Lemma mousedown_isDrawing rect e s : isDrawing (step s (mousedown rect e)) = true.
Proof. js_unfold; js_cases; reflexivity. Qed.

Lemma stroke_surface t :
  paints (surface (with_ctx stroke t)) =
  paints (surface t) ++ [StrokePath (path (ctx t)) (pen (ctx t))].
Proof. reflexivity. Qed.

Lemma strokeRect_surface rx ry w h t :
  paints (surface (with_ctx (strokeRect rx ry w h) t)) =
  paints (surface t) ++ [StrokeRect rx ry w h (pen (ctx t))].
Proof. reflexivity. Qed.

Lemma beginPath_surface t : surface (with_ctx beginPath t) = surface t.
Proof. reflexivity. Qed.

Lemma lineTo_surface px py t : surface (with_ctx (lineTo px py) t) = surface t.
Proof. reflexivity. Qed.

Lemma arc_surface cx cy r a0 a1 t :
  surface (with_ctx (arc cx cy r a0 a1) t) = surface t.
Proof. reflexivity. Qed.

Lemma width_after_twice v w : width_after v (width_after v w) = width_after v w.
Proof.
  unfold width_after. destruct v as [u|]; [destruct (0 <? u)%Z eqn:E|]; reflexivity.
Qed.

Lemma assign_style_twice v st :
  assign_style v (assign_style v st) = assign_style v st.
Proof.
  unfold assign_style. destruct (surely_a_color v); [reflexivity|].
  destruct st as [c|u prev].
  - rewrite String.eqb_refl. reflexivity.
  - destruct (u =? v)%string eqn:E; [rewrite E | rewrite String.eqb_refl];
      reflexivity.
Qed.

(** The pen [draw] sets before it dispatches. *)
Lemma styled_pen s :
  pen (ctx (styled s)) =
  pen_after (if (currentTool s =? "eraser")%string then "white" else color s) s.
Proof.
  unfold styled, pen_after, width_after, Canvas.set_lineWidth. cbn.
  destruct (lineWidth s) as [w|]; [destruct (0 <? w)%Z|]; reflexivity.
Qed.

Lemma styled_path s : path (ctx (styled s)) = path (ctx s).
Proof.
  unfold styled, Canvas.set_lineWidth. cbn.
  destruct (lineWidth s) as [w|]; [destruct (0 <? w)%Z|]; reflexivity.
Qed.

Lemma shape_pen t :
  pen (ctx (with_ctx beginPath (after restoreLastState t))) = pen (ctx t).
Proof.
  change (pen (ctx (with_ctx beginPath (after restoreLastState t))))
    with (pen (ctx (after restoreLastState t))).
  rewrite restoreLastState_ctx. reflexivity.
Qed.

(** The side the square tool strokes along one axis: of length [m], the
    way of the delta. *)
Lemma square_side c a m :
  0 <= m ->
  Rabs (m * (if Rgt_dec c a then 1 else -1)) = m /\
  0 <= m * (if Rgt_dec c a then 1 else -1) * (c - a).
Proof.
  intros Hm. destruct (Rgt_dec c a) as [H|H].
  - rewrite Rmult_1_r. split; [apply Rabs_right; lra | nra].
  - replace (m * -1) with (- m) by lra. rewrite Rabs_Ropp.
    split; [apply Rabs_right; lra | nra].
Qed.

(** What one pointer move of an active gesture paints. *)
Lemma move_painted rect e s :
  Inv s -> isDrawing s = true ->
  exists p,
    paints (surface (step s (mousemove rect e))) = paints (surface s) ++ [p] /\
    painted_by (currentTool s) s (cursor rect e) p.
Proof.
  intros [_ [b Hb] Ha _] Hd. destruct (Ha Hd) as [a Hp].
  assert (Hpen : pen (ctx (styled s)) =
                 pen_after (if (tool_of b =? "eraser")%string
                            then "white" else color s) s)
    by (rewrite styled_pen, Hb; reflexivity).
  destruct b; cbn [tool_of] in Hb, Hpen;
    change (pen (ctx (styled s)) = pen_after (color s) s) in Hpen
    || change (pen (ctx (styled s)) = pen_after "white" s) in Hpen.
  - rewrite draw_freehand by (rewrite ?Hb; auto).
    eexists; split.
    + rewrite stroke_surface, lineTo_surface, styled_surface. reflexivity.
    + exists a. split; [exact Hp|]. cbv zeta. left. split; [exact Hb|].
      change (pen (ctx (with_ctx (lineTo ?u ?v) ?t))) with (pen (ctx t)).
      change (path (ctx (with_ctx (lineTo (x (cursor rect e)) (y (cursor rect e)))
                           (styled s))))
        with (path (ctx (styled s)) ++ [LineTo (cursor rect e)]).
      rewrite styled_path, Hpen. reflexivity.
  - rewrite draw_freehand by (rewrite ?Hb; auto).
    eexists; split.
    + rewrite stroke_surface, lineTo_surface, styled_surface. reflexivity.
    + exists a. split; [exact Hp|]. cbv zeta. right; left. split; [exact Hb|].
      change (pen (ctx (with_ctx (lineTo ?u ?v) ?t))) with (pen (ctx t)).
      change (path (ctx (with_ctx (lineTo (x (cursor rect e)) (y (cursor rect e)))
                           (styled s))))
        with (path (ctx (styled s)) ++ [LineTo (cursor rect e)]).
      rewrite styled_path, Hpen. reflexivity.
  - rewrite (draw_rectangle rect e s a Hd Hb Hp).
    eexists; split.
    + rewrite strokeRect_surface, beginPath_surface, restoreLastState_surface,
        styled_surface. reflexivity.
    + exists a. split; [exact Hp|]. cbv zeta. right; right; left.
      split; [exact Hb|]. rewrite shape_pen, Hpen. reflexivity.
  - rewrite (draw_square rect e s a Hd Hb Hp). cbv zeta.
    eexists; split.
    + rewrite strokeRect_surface, beginPath_surface, restoreLastState_surface,
        styled_surface. reflexivity.
    + exists a. split; [exact Hp|]. cbv zeta. right; right; right; left.
      split; [exact Hb|].
      pose proof (Rmin_abs_nonneg (x (cursor rect e) - x a) (y (cursor rect e) - y a))
        as Hm.
      destruct (square_side (x (cursor rect e)) (x a) _ Hm) as [Hw1 Hw2].
      destruct (square_side (y (cursor rect e)) (y a) _ Hm) as [Hh1 Hh2].
      eexists; eexists. split; [rewrite shape_pen, Hpen; reflexivity|].
      repeat split; assumption.
  - rewrite (draw_circle rect e s a Hd Hb Hp). cbv zeta.
    eexists; split.
    + rewrite stroke_surface, arc_surface, beginPath_surface,
        restoreLastState_surface, styled_surface. reflexivity.
    + exists a. split; [exact Hp|]. cbv zeta. right; right; right; right.
      split; [exact Hb|].
      change (pen (ctx (with_ctx (arc ?a1 ?a2 ?a3 ?a4 ?a5) ?t))) with (pen (ctx t)).
      rewrite shape_pen, Hpen.
      change (path (ctx (with_ctx (arc ?a1 ?a2 ?a3 ?a4 ?a5)
                           (with_ctx beginPath ?t))))
        with ([Arc a1 a2 a3 a4 a5]).
      do 3 f_equal. unfold dist_euc, Rsqr. f_equal. ring.
Qed.

(** A side of given length and direction is one number. *)
Lemma side_unique w w' m d :
  Rabs w = m -> Rabs w' = m -> 0 <= w * d -> 0 <= w' * d -> m <= Rabs d ->
  w = w'.
Proof.
  unfold Rabs.
  destruct (Rcase_abs w), (Rcase_abs w'), (Rcase_abs d); intros; nra.
Qed.

(** [painted_by] gives each tool one behaviour: a tool, a state and a cursor
    position determine the paint. *)
Lemma painted_by_functional tool s cur p q :
  painted_by tool s cur p -> painted_by tool s cur q -> p = q.
Proof.
  intros (a & Ha & Hp) (a' & Ha' & Hq).
  assert (a' = a) by congruence. subst a'. cbv zeta in Hp, Hq.
  destruct Hp as [[T1 ->]|[[T1 ->]|[[T1 ->]|[[T1 (w & h & -> & Hw & Hh & Sw & Sh)]|[T1 ->]]]]];
  destruct Hq as [[T2 ->]|[[T2 ->]|[[T2 ->]|[[T2 (w' & h' & -> & Hw' & Hh' & Sw' & Sh')]|[T2 ->]]]]];
    subst tool; try discriminate T2; try reflexivity.
  assert (w = w')
    by (apply (side_unique w w' _ _ Hw Hw' Sw Sw'), Rmin_l).
  assert (h = h')
    by (apply (side_unique h h' _ _ Hh Hh' Sh Sh'), Rmin_r).
  subst. reflexivity.
Qed.

(** It tells the rectangle from the square: what both tools would paint at
    the same cursor is a rectangle whose raw deltas have equal magnitude. *)
Lemma painted_by_rectangle_or_square s cur p a :
  startPoint s = Some a ->
  painted_by "rectangle" s cur p -> painted_by "square" s cur p ->
  Rabs (x cur - x a) = Rabs (y cur - y a).
Proof.
  intros Ha (a1 & Ha1 & Hr) (a2 & Ha2 & Hq).
  assert (a1 = a) by congruence. assert (a2 = a) by congruence. subst a1 a2.
  cbv zeta in Hr, Hq.
  destruct Hr as [[T _]|[[T _]|[[_ ->]|[[T _]|[T _]]]]]; try discriminate T.
  destruct Hq as [[T _]|[[T _]|[[T _]|[[_ (w & h & E & Hw & Hh & _)]|[T _]]]]];
    try discriminate T.
  injection E as <- <-. congruence.
Qed.

(** It tells the pencil from the eraser: what both would paint is a stroke
    for which the selected colour, once assigned, is white. *)
Lemma painted_by_pencil_or_eraser s cur p :
  painted_by "pencil" s cur p -> painted_by "eraser" s cur p ->
  assign_style (color s) (strokeStyle (pen (ctx s))) = Colour "white".
Proof.
  intros (a1 & _ & Hp) (a2 & _ & Hq). cbv zeta in Hp, Hq.
  destruct Hp as [[_ ->]|[[T _]|[[T _]|[[T _]|[T _]]]]]; try discriminate T.
  destruct Hq as [[T _]|[[_ E]|[[T _]|[[T _]|[T _]]]]]; try discriminate T.
  injection E as E. rewrite E. reflexivity.
Qed.

(** C8 as the code has it.  Pointer down records the anchor and sets the
    flag; it stores no tool.  While the gesture stays open, the selected
    tool is the last tool button clicked since, or the tool selected at
    pointer down when no tool button was clicked; every pointer move is
    dispatched on the tool selected at the time of the move and paints what
    that tool paints ([painted_by] tells the five tools apart: by the colour
    of the stroke for pencil and eraser, by the sides of the rectangle for
    rectangle and square). *)
Theorem move_dispatches_on_selected_tool
  (s : App) (Hs : reachable s) (rect0 : DOMRect) (e0 : MouseEvent)
  (evs : list Event) (Hopen : no_release evs = true)
  (rect : DOMRect) (e : MouseEvent) :
  let s1 := run (mousedown rect0 e0 :: evs) s in
  fields (step s (mousedown rect0 e0)) =
    fields (set_startPoint (Some (cursor rect0 e0)) (set_isDrawing true s)) /\
  currentTool s1 = selected evs (currentTool s) /\
  (no_tool_click evs = true -> currentTool s1 = currentTool s) /\
  exists p,
    paints (surface (step s1 (mousemove rect e))) = paints (surface s1) ++ [p] /\
    painted_by (currentTool s1) s1 (cursor rect e) p.
Proof.
  intros s1.
  assert (Htool : currentTool s1 = selected evs (currentTool s)).
  { unfold s1. cbn [run fold_left]. fold (run evs (step s (mousedown rect0 e0))).
    rewrite run_currentTool, step_currentTool. reflexivity. }
  split; [js_unfold; js_cases; reflexivity|].
  split; [exact Htool|].
  split; [intros H; rewrite Htool; apply selected_no_tool_click, H|].
  apply move_painted.
  - apply reachable_Inv, reachable_run, Hs.
  - unfold s1. cbn [run fold_left].
    apply run_isDrawing; [exact Hopen | apply mousedown_isDrawing].
Qed.

Lemma move_dispatches_on_selected_tool_witness :
  currentTool
    (run [mousedown origin (mkMouse 0 0); click_tool rectangleTool] constructor)
  = "rectangle" /\
  exists p,
    paints (surface
      (step (run [mousedown origin (mkMouse 0 0); click_tool rectangleTool] constructor)
            (mousemove origin (mkMouse 10 10)))) =
    paints (surface
      (run [mousedown origin (mkMouse 0 0); click_tool rectangleTool] constructor))
    ++ [p] /\
    painted_by "rectangle"
      (run [mousedown origin (mkMouse 0 0); click_tool rectangleTool] constructor)
      (cursor origin (mkMouse 10 10)) p.
Proof.
  pose proof (move_dispatches_on_selected_tool constructor reach_constructor
                origin (mkMouse 0 0) [click_tool rectangleTool] eq_refl
                origin (mkMouse 10 10)) as (_ & Htool & _ & Hpaint).
  split; [exact Htool | exact Hpaint].
Defined.

(** C8 as the claim states it fails.  A gesture begun with the pencil,
    whose tool is changed to the rectangle before the first pointer move,
    paints a rectangle at that move, which the pencil does not paint. *)
Lemma tool_change_redirects_gesture :
  currentTool (step constructor (mousedown origin (mkMouse 0 0))) = "pencil" /\
  paints (surface
    (run [mousedown origin (mkMouse 0 0); click_tool rectangleTool;
          mousemove origin (mkMouse 10 10)] constructor)) = [box 10] /\
  ~ painted_by "pencil"
      (run [mousedown origin (mkMouse 0 0); click_tool rectangleTool] constructor)
      (cursor origin (mkMouse 10 10)) (box 10).
Proof.
  split; [reflexivity|]. split.
  - js_eval. repeat f_equal; lra.
  - intros (a & _ & [[_ H]|[[H _]|[[H _]|[[H _]|[H _]]]]]); discriminate H.
Qed.

(** * Further properties of the code *)

(** ** Undo and redo over the whole history *)

Lemma times_inner n m s : times (S n) m s = times n m (after m s).
Proof.
  induction n as [|n IH]; [reflexivity|].
  cbn [times] in *. rewrite IH. reflexivity.
Qed.

Lemma undo_many l : forall s h,
  history s = h ++ l -> h <> [] ->
  history (times (List.length l) undo s) = h /\
  redoStack (times (List.length l) undo s) = redoStack s ++ rev l.
Proof.
  induction l as [|a l IH] using rev_ind; intros s h Hh Hne.
  - cbn. rewrite app_nil_r in *. auto.
  - rewrite length_app, Nat.add_comm. cbn [List.length Nat.add].
    rewrite times_inner. unfold after.
    rewrite (undo_pop s (h ++ l) a);
      [| rewrite Hh, app_assoc; reflexivity
       | intros E; apply app_eq_nil in E as [E _]; exact (Hne E)].
    cbn [snd].
    destruct (IH (set_loading (loading s ++ [last (h ++ l) undefined])
                    (set_redoStack (redoStack s ++ [a]) (set_history (h ++ l) s)))
                 h eq_refl Hne) as [H1 H2].
    split; [exact H1|]. rewrite H2. cbn. rewrite rev_app_distr, <- app_assoc.
    reflexivity.
Qed.

Lemma redo_many l : forall s r,
  redoStack s = r ++ l ->
  redoStack (times (List.length l) redo s) = r /\
  history (times (List.length l) redo s) = history s ++ rev l.
Proof.
  induction l as [|a l IH] using rev_ind; intros s r Hr.
  - cbn. rewrite app_nil_r in *. auto.
  - rewrite length_app, Nat.add_comm. cbn [List.length Nat.add].
    rewrite times_inner. unfold after.
    rewrite (redo_pop s (r ++ l) a) by (rewrite Hr, app_assoc; reflexivity).
    cbn [snd].
    destruct (IH (set_loading (loading s ++ [a])
                    (set_history (history s ++ [a]) (set_redoStack (r ++ l) s)))
                 r eq_refl) as [H1 H2].
    split; [exact H1|]. rewrite H2. cbn. rewrite rev_app_distr, <- app_assoc.
    reflexivity.
Qed.

Lemma redo_idle_many n : forall s,
  redoStack s = [] -> times n redo s = s.
Proof.
  induction n as [|n IH]; intros s H; [reflexivity|].
  cbn [times]. rewrite (IH s H). unfold after. rewrite (redo_empty s H). reflexivity.
Qed.

Lemma times_add n k m s : times (n + k) m s = times n m (times k m s).
Proof. induction n as [|n IH]; [reflexivity|]. cbn. rewrite IH. reflexivity. Qed.

(** X1.  Undo and redo move snapshots between the two stacks and lose
    none: the timeline is the same after any sequence of events that holds
    no end of gesture and no clear. *)
Theorem timeline_kept_without_commit
  (evs : list Event) (Hevs : forallb commits_nothing evs = true) (s : App) :
  timeline (run evs s) = timeline s.
Proof.
  revert s; induction evs as [|ev evs IH]; intros s; [reflexivity|].
  cbn in Hevs. apply andb_prop in Hevs as [Hev Hevs].
  cbn [run fold_left]. fold (run evs (step s ev)). rewrite (IH Hevs).
  clear IH Hevs. unfold timeline.
  destruct ev; try discriminate Hev; unfold step; cbn [handle];
    try (destruct (fields_inv _ _ (draw_fields rect e s)) as (_&_&_&_&_&->&->&_);
         reflexivity);
    try (destruct (fields_inv _ _ (load_fields i s)) as (_&_&_&_&_&H1&H2&_);
         unfold step in H1, H2; cbn [handle] in H1, H2; rewrite H1, H2;
         reflexivity).
  - reflexivity.
  - reflexivity.
  - reflexivity.
  - (* undo *)
    unfold after.
    destruct (le_lt_dec (List.length (history s)) 1) as [Hle|Hlt].
    + rewrite undo_floor by exact Hle. reflexivity.
    + destruct (@snoc_view _ (history s)) as (h & cur & Eh).
      { intros E; rewrite E in Hlt; cbn in Hlt; lia. }
      rewrite (undo_pop s h cur Eh).
      * cbn. rewrite Eh, rev_app_distr, <- app_assoc. reflexivity.
      * intros ->. rewrite Eh in Hlt. cbn in Hlt. lia.
  - (* redo *)
    unfold after.
    destruct (redoStack s) as [|a r] eqn:Er.
    + rewrite redo_empty by exact Er. cbn. rewrite Er. reflexivity.
    + destruct (@snoc_view _ (a :: r)) as (r' & next & E); [discriminate|].
      rewrite (redo_pop s r' next) by congruence.
      rewrite E. cbn [snd history redoStack set_loading set_history set_redoStack].
      rewrite rev_app_distr, <- app_assoc. reflexivity.
  - reflexivity.
  - js_unfold; js_cases; reflexivity.
Qed.

Lemma timeline_kept_without_commit_witness :
  timeline (run [click_undo; click_redo; click_undo; mousedown origin (mkMouse 1 1);
                 click_undo]
              (run (sketch ++ sketch) constructor)) =
  timeline (run (sketch ++ sketch) constructor).
Proof.
  apply (timeline_kept_without_commit
           [click_undo; click_redo; click_undo; mousedown origin (mkMouse 1 1);
            click_undo] eq_refl).
Defined.

(** X2.  Redo has a ceiling as undo has a floor: called at least as many
    times as [redoStack] is long, it leaves [redoStack] empty and [history]
    extended by the whole redo stack, most recently undone first; further
    calls change nothing. *)
Theorem redo_ceiling (s : App) (n : nat)
  (Hn : (List.length (redoStack s) <= n)%nat) :
  redoStack (times n redo s) = [] /\
  history (times n redo s) = history s ++ rev (redoStack s) /\
  times (S n) redo s = times n redo s.
Proof.
  replace n with ((n - List.length (redoStack s)) + List.length (redoStack s))%nat
    by lia.
  destruct (redo_many (redoStack s) s [] eq_refl) as [Hr Hh].
  assert (E : times (n - List.length (redoStack s) + List.length (redoStack s)) redo s
              = times (List.length (redoStack s)) redo s).
  { rewrite times_add. apply redo_idle_many, Hr. }
  split; [rewrite E; exact Hr|]. split; [rewrite E; exact Hh|].
  cbn [times]. rewrite E. unfold after. rewrite (redo_empty _ Hr). reflexivity.
Qed.

Lemma redo_ceiling_witness :
  redoStack (times 5 redo (run (sketch ++ sketch ++ [click_undo; click_undo]) constructor))
    = [] /\
  history (times 5 redo (run (sketch ++ sketch ++ [click_undo; click_undo]) constructor))
    = history (run (sketch ++ sketch) constructor).
Proof.
  destruct (redo_ceiling
              (run (sketch ++ sketch ++ [click_undo; click_undo]) constructor) 5)
    as (Hr & Hh & _); [js_eval; lia|].
  split; [exact Hr|]. rewrite Hh. js_eval. reflexivity.
Defined.

(** X3.  In a reachable state, k calls of undo followed by k calls of redo
    bring both stacks back as they were, for every k below the length of
    [history]; when k is not 0 the canvas then shows the top of [history]
    once the restores have completed. *)
Theorem undo_k_redo_k (s : App) (Hs : reachable s) (k : nat)
  (Hk : (k < List.length (history s))%nat) :
  history (times k redo (times k undo s)) = history s /\
  redoStack (times k redo (times k undo s)) = redoStack s /\
  ((0 < k)%nat -> shows_top (settle (times k redo (times k undo s)))).
Proof.
  set (h := firstn (List.length (history s) - k) (history s)).
  set (l := skipn (List.length (history s) - k) (history s)).
  assert (Ehl : history s = h ++ l) by (symmetry; apply firstn_skipn).
  assert (Hl : List.length l = k) by (unfold l; rewrite length_skipn; lia).
  assert (Hne : h <> []).
  { intros E. apply (f_equal (@List.length _)) in E.
    unfold h in E. rewrite length_firstn in E. cbn in E. lia. }
  destruct (undo_many l s h Ehl Hne) as [Hu1 Hu2]. rewrite Hl in Hu1, Hu2.
  destruct (redo_many (rev l) (times k undo s) (redoStack s) Hu2) as [Hr1 Hr2].
  rewrite length_rev, Hl in Hr1, Hr2. rewrite rev_involutive, Hu1 in Hr2.
  split; [rewrite Hr2; symmetry; exact Ehl|]. split; [exact Hr1|].
  intros Hpos.
  (* the last call is a redo that took effect *)
  destruct k as [|k]; [lia|].
  cbn [times] in *.
  set (t := times k redo (after undo (times k undo s))) in *.
  destruct (@snoc_view _ l) as (l' & a & El).
  { intros E; rewrite E in Hl; discriminate Hl. }
  assert (Ht : redoStack t = redoStack s ++ [a]).
  { destruct (redo_many (rev l') (after undo (times k undo s)) (redoStack s ++ [a]))
      as [H1 _].
    - rewrite Hu2, El, rev_app_distr, <- app_assoc. reflexivity.
    - rewrite length_rev in H1.
      assert (List.length l' = k)
        by (rewrite El, length_app in Hl; cbn in Hl; lia).
      subst t. congruence. }
  unfold shows_top, after in *.
  rewrite (redo_pop t _ a Ht) in *. cbn [snd] in *.
  rewrite settle_history.
  rewrite (settle_surface _ (loading t) a) by reflexivity.
  cbn. rewrite last_last. reflexivity.
Qed.

Lemma undo_k_redo_k_witness :
  history (times 2 redo (times 2 undo (run (sketch ++ sketch) constructor))) =
  history (run (sketch ++ sketch) constructor) /\
  shows_top (settle (times 2 redo (times 2 undo (run (sketch ++ sketch) constructor)))).
Proof.
  destruct (undo_k_redo_k (run (sketch ++ sketch) constructor)
              (reachable_run _ _ reach_constructor) 2) as (Hh & _ & Hs);
    [js_eval; lia|].
  split; [exact Hh | apply Hs; lia].
Defined.

(** X4.  Clear can be undone.  In a reachable state, clear followed by
    undo leaves [history] as it was before the clear, the blank snapshot of
    the clear as the only entry of [redoStack] (what was there to redo is
    gone), and the canvas, once the restores on their way have completed in
    the order started, showing the top of [history]. *)
Theorem clear_then_undo (s : App) (Hs : reachable s) :
  history (step (step s click_clear) click_undo) = history s /\
  redoStack (step (step s click_clear) click_undo) = [blank] /\
  shows_top (settle (step (step s click_clear) click_undo)).
Proof.
  destruct (reachable_Inv s Hs) as [[rest Hh] _ _ _].
  set (c := step s click_clear).
  assert (Hc : history c = history s ++ [blank]) by reflexivity.
  assert (Hr : redoStack c = []) by reflexivity.
  assert (Hne : history s <> []) by (rewrite Hh; discriminate).
  unfold step, after. cbn [handle].
  rewrite (undo_pop c (history s) blank Hc Hne). cbn [snd].
  split; [reflexivity|]. split; [reflexivity|].
  unfold shows_top. rewrite settle_history.
  rewrite (settle_surface _ (loading c) (last (history s) undefined)) by reflexivity.
  reflexivity.
Qed.

Lemma clear_then_undo_witness :
  history (step (step (run sketch constructor) click_clear) click_undo) =
  history (run sketch constructor) /\
  redoStack (step (step (run sketch constructor) click_clear) click_undo) = [blank].
Proof.
  destruct (clear_then_undo (run sketch constructor) sketch_reachable)
    as (Hh & Hr & _).
  split; [exact Hh | exact Hr].
Defined.

(** X5.  An undo or a redo that takes effect brings the canvas back in
    step with the history: once the restores have completed, in order, the
    canvas shows the top of [history], whatever it showed before and
    whatever restores were already on their way. *)
Theorem undo_redo_resynchronise (s : App) :
  ((1 < List.length (history s))%nat -> shows_top (settle (after undo s))) /\
  (redoStack s <> [] -> shows_top (settle (after redo s))).
Proof.
  split.
  - intros Hlen.
    destruct (@snoc_view _ (history s)) as (h & cur & Eh).
    { intros E; rewrite E in Hlen; cbn in Hlen; lia. }
    assert (Hne : h <> []).
    { intros ->. rewrite Eh in Hlen. cbn in Hlen. lia. }
    unfold shows_top, after. rewrite (undo_pop s h cur Eh Hne). cbn [snd].
    rewrite settle_history.
    rewrite (settle_surface _ (loading s) (last h undefined)) by reflexivity.
    reflexivity.
  - intros Hr. destruct (snoc_view _ Hr) as (r & next & Er).
    unfold shows_top, after. rewrite (redo_pop s r next Er). cbn [snd].
    rewrite settle_history.
    rewrite (settle_surface _ (loading s) next) by reflexivity.
    cbn. rewrite last_last. reflexivity.
Qed.

Lemma undo_redo_resynchronise_witness :
  shows_top (settle (after undo (run quick_rectangle constructor))) /\
  ~ shows_top (run quick_rectangle constructor).
Proof.
  split.
  - apply (proj1 (undo_redo_resynchronise (run quick_rectangle constructor))).
    js_eval. lia.
  - unfold shows_top. intros H.
    apply (f_equal (fun p => List.length (paints p))) in H.
    revert H. js_eval. discriminate.
Defined.

(** ** The order of the load events *)

Lemma load_at s i img :
  nth_error (loading s) i = Some img ->
  step s (load i) = after (onload img) (set_loading (remove_nth i (loading s)) s).
Proof. intros H; js_unfold; rewrite H; reflexivity. Qed.

Lemma load_out_of_range s i :
  nth_error (loading s) i = None -> step s (load i) = s.
Proof. intros H; js_unfold; rewrite H; reflexivity. Qed.

Lemma remove_nth_last {A} (l : list A) (a : A) :
  remove_nth (List.length (l ++ [a]) - 1) (l ++ [a]) = l.
Proof.
  rewrite length_app, Nat.add_sub. induction l as [|b l IH]; [reflexivity|].
  cbn. rewrite IH. reflexivity.
Qed.

Lemma nth_error_last {A} (l : list A) (a : A) :
  nth_error (l ++ [a]) (List.length (l ++ [a]) - 1) = Some a.
Proof.
  rewrite length_app, Nat.add_sub, nth_error_app2, Nat.sub_diag by lia.
  reflexivity.
Qed.

Lemma deliver_newest_first_all l : forall s first,
  loading s = first :: l ->
  loading (deliver_newest_first (S (List.length l)) s) = [] /\
  fields (deliver_newest_first (S (List.length l)) s) = fields s /\
  surface (deliver_newest_first (S (List.length l)) s) = decode first.
Proof.
  induction l as [|a l IH] using rev_ind; intros s first H.
  - cbn [List.length deliver_newest_first]. rewrite H. cbn [List.length Nat.sub].
    rewrite (load_at s 0 first) by (rewrite H; reflexivity).
    rewrite H. cbn [remove_nth].
    split; [reflexivity|]. split; [reflexivity | apply onload_surface].
  - rewrite length_app, Nat.add_comm.
    change (S (List.length [a] + List.length l)) with (S (S (List.length l))).
    change (deliver_newest_first (S (S (List.length l))) s)
      with (deliver_newest_first (S (List.length l))
              (step s (load (List.length (loading s) - 1)))).
    assert (E : loading s = (first :: l) ++ [a]) by (rewrite H; reflexivity).
    rewrite (load_at s (List.length (loading s) - 1) a)
      by (rewrite E; apply nth_error_last).
    rewrite E, remove_nth_last.
    destruct (IH (after (onload a) (set_loading (first :: l) s)) first eq_refl)
      as (H1 & H2 & H3).
    split; [exact H1|]. split; [rewrite H2; reflexivity | exact H3].
Qed.

(** X6.  The canvas ends up showing the image whose load event came last,
    which need not be the one whose restore was started last.  With the
    restores completing in the order started, it is the newest; with the
    newest completing first, it is the oldest.  Either way no field of the
    application changes. *)
Theorem canvas_shows_last_loaded
  (s : App) (first : DataURL) (rest : list DataURL)
  (Hl : loading s = first :: rest) :
  surface (settle s) = decode (last rest first) /\
  surface (settle_newest_first s) = decode first /\
  loading (settle_newest_first s) = [] /\
  fields (settle s) = fields s /\
  fields (settle_newest_first s) = fields s.
Proof.
  destruct (deliver_newest_first_all rest s first Hl) as (H1 & H2 & H3).
  unfold settle_newest_first. rewrite Hl. cbn [List.length].
  split.
  - destruct (@snoc_view _ (first :: rest)) as (l & a & E); [discriminate|].
    rewrite (settle_surface s l a) by congruence.
    f_equal. destruct rest as [|b rest'].
    + destruct l; [injection E as ->; reflexivity|].
      destruct l; discriminate E.
    + change (last (b :: rest') first) with (last (first :: b :: rest') first).
      rewrite E. symmetry. apply last_last.
  - split; [exact H3|]. split; [exact H1|]. split; [apply settle_fields | exact H2].
Qed.

Lemma canvas_shows_last_loaded_witness :
  (* two strokes, two quick undos: the restores of the first stroke and of the
     blank canvas are both on their way *)
  history (run (sketch ++ sketch ++ [click_undo; click_undo]) constructor) = [blank] /\
  surface (settle (run (sketch ++ sketch ++ [click_undo; click_undo]) constructor))
    = decode blank /\
  surface (settle_newest_first
             (run (sketch ++ sketch ++ [click_undo; click_undo]) constructor))
    <> decode blank.
Proof.
  split; [js_eval; reflexivity|].
  destruct (canvas_shows_last_loaded
              (run (sketch ++ sketch ++ [click_undo; click_undo]) constructor)
              (PNG (surface (run sketch constructor))) [blank])
    as (Hf & Hn & _); [js_eval; reflexivity|].
  split; [exact Hf|].
  rewrite Hn. intros H. apply (f_equal (fun p => List.length (paints p))) in H.
  revert H. js_eval. discriminate.
Defined.

(** ** The canvas is never transparent *)

Lemma Forall_snoc {A} (P : A -> Prop) l a :
  Forall P l -> P a -> Forall P (l ++ [a]).
Proof. intros Hl Ha. apply Forall_app; split; [exact Hl | constructor; auto]. Qed.

Lemma Forall_last_default {A} (P : A -> Prop) l d :
  Forall P l -> l <> [] -> P (last l d).
Proof.
  intros Hl Hne. destruct (snoc_view _ Hne) as (h & a & ->).
  rewrite last_last. apply Forall_app in Hl as [_ Ha]. inversion Ha; assumption.
Qed.

Lemma Forall_remove_nth {A} (P : A -> Prop) i : forall l,
  Forall P l -> Forall P (remove_nth i l).
Proof.
  induction i as [|i IH]; intros [|a l] H; cbn; auto; inversion H; subst; auto.
Qed.

Lemma Forall_nth_error {A} (P : A -> Prop) l i a :
  Forall P l -> nth_error l i = Some a -> P a.
Proof.
  intros H E. apply nth_error_In in E. rewrite Forall_forall in H. auto.
Qed.

Lemma draw_backdrop rect e s :
  backdrop (surface (after (draw rect e) s)) = backdrop (surface s).
Proof.
  js_unfold; unfold surface, Canvas.set_lineWidth; js_cases; reflexivity.
Qed.

Lemma draw_loading rect e s :
  loading (after (draw rect e) s) = loading s \/
  (history s <> [] /\
   loading (after (draw rect e) s) = loading s ++ [last (history s) undefined]).
Proof.
  js_unfold; js_cases; auto.
  all: right; split; [intros E; rewrite E in *; discriminate | reflexivity].
Qed.

Lemma closePath_surface s : surface (with_ctx closePath s) = surface s.
Proof. unfold surface, closePath; cbn. destruct (path (ctx s)); reflexivity. Qed.

(** The end of a gesture under a tool that is not one of the five. *)
Lemma stopDrawing_foreign s :
  isDrawing s = true -> includes drawing_tools (currentTool s) = false ->
  stopDrawing s =
  (Normal tt, set_startPoint None (set_isDrawing false (with_ctx closePath s))).
Proof.
  intros Hd Ht.
  unfold stopDrawing, bind, read, update, on_ctx, ret. rewrite Hd.
  cbn -[includes drawing_tools closePath saveCanvasState].
  rewrite Ht. reflexivity.
Qed.

Lemma AllOpaque_stopDrawing s : AllOpaque s -> AllOpaque (after stopDrawing s).
Proof.
  intros [Hs Hh Hr Hl Hd]. unfold after.
  destruct (isDrawing s) eqn:Ed; [|rewrite stopDrawing_idle by exact Ed; split; assumption].
  destruct (includes drawing_tools (currentTool s)) eqn:Et.
  - rewrite stopDrawing_commit by assumption.
    split;
      [change (on_white (surface (with_ctx closePath s)));
       rewrite closePath_surface; exact Hs
      | apply Forall_snoc; [assumption | exact Hs]
      | constructor | exact Hl | exact Hd].
  - rewrite stopDrawing_foreign by assumption.
    split;
      [change (on_white (surface (with_ctx closePath s)));
       rewrite closePath_surface; exact Hs
      | exact Hh | exact Hr | exact Hl | exact Hd].
Qed.

Lemma AllOpaque_constructor : AllOpaque constructor.
Proof.
  rewrite constructor_eq. split; cbn; try constructor; try reflexivity; constructor.
Qed.

Lemma AllOpaque_step s ev : AllOpaque s -> AllOpaque (step s ev).
Proof.
  intros [Hs Hh Hr Hl Hd].
  destruct ev; unfold step; cbn [handle].
  - (* tool *) split; assumption.
  - (* colour *) split; assumption.
  - (* width *) split; assumption.
  - (* undo *)
    unfold after.
    destruct (le_lt_dec (List.length (history s)) 1) as [Hle|Hlt].
    + rewrite undo_floor by exact Hle. split; assumption.
    + destruct (@snoc_view _ (history s)) as (h & cur & Eh).
      { intros E; rewrite E in Hlt; cbn in Hlt; lia. }
      assert (Hne : h <> []).
      { intros ->. rewrite Eh in Hlt. cbn in Hlt. lia. }
      rewrite (undo_pop s h cur Eh Hne). rewrite Eh in Hh.
      apply Forall_app in Hh as [Hh Hc]. inversion Hc; subst.
      split; cbn;
        [exact Hs | exact Hh | apply Forall_snoc; assumption
         | apply Forall_snoc; [exact Hl | apply Forall_last_default; assumption]
         | exact Hd].
  - (* redo *)
    unfold after.
    destruct (redoStack s) as [|a r] eqn:Er.
    + rewrite redo_empty by exact Er.
      split; cbn; try assumption. rewrite Er; constructor.
    + destruct (@snoc_view _ (a :: r)) as (r' & next & E); [discriminate|].
      rewrite (redo_pop s r' next) by congruence. rewrite E in Hr.
      apply Forall_app in Hr as [Hr Hn]. inversion Hn; subst.
      split; cbn;
        [exact Hs | apply Forall_snoc; assumption | exact Hr
         | apply Forall_snoc; assumption | exact Hd].
  - (* clear *)
    split; cbn;
      [reflexivity | apply Forall_snoc; [assumption | reflexivity]
       | constructor | exact Hl | exact Hd].
  - (* download *)
    split; cbn;
      [exact Hs | exact Hh | exact Hr | exact Hl
       | apply Forall_snoc; [assumption | exact Hs]].
  - (* pointer down *)
    js_unfold; js_cases; split; assumption.
  - (* pointer move *)
    destruct (fields_inv _ _ (draw_fields rect e s)) as (_&_&_&_&_&Eh&Er&Ed).
    split; [unfold on_white; rewrite draw_backdrop; exact Hs
           | rewrite Eh; exact Hh | rewrite Er; exact Hr | | rewrite Ed; exact Hd].
    destruct (draw_loading rect e s) as [->|[Hne ->]]; [exact Hl|].
    apply Forall_snoc; [exact Hl | apply Forall_last_default; assumption].
  - (* pointer up *) apply AllOpaque_stopDrawing; split; assumption.
  - (* pointer out *) apply AllOpaque_stopDrawing; split; assumption.
  - (* an image has loaded *)
    destruct (nth_error (loading s) i) as [img|] eqn:E.
    + change (AllOpaque (step s (load i))). rewrite (load_at s i img E).
      split; try assumption.
      * unfold on_white. rewrite onload_surface.
        exact (Forall_nth_error _ _ _ _ Hl E).
      * cbn. apply Forall_remove_nth, Hl.
    + change (AllOpaque (step s (load i))). rewrite (load_out_of_range s i E).
      split; assumption.
Qed.

(** X7.  The canvas is never transparent.  In every reachable state the
    canvas is a white backdrop with strokes on it, and so is every image
    the application holds: the snapshots of both stacks, the images on
    their way and the files offered for download. *)
Theorem canvas_always_opaque (s : App) (Hs : reachable s) : AllOpaque s.
Proof.
  induction Hs as [|s ev _ IH]; [apply AllOpaque_constructor|].
  apply AllOpaque_step, IH.
Qed.

Lemma canvas_always_opaque_witness :
  on_white (surface (run (quick_rectangle ++ [click_undo; load 0; click_clear])
                       constructor)).
Proof.
  apply (canvas_always_opaque _ (reachable_run _ _ reach_constructor)).
Defined.

(** ** Freehand gestures *)

Lemma prefixes_snoc {A} (l : list A) (a : A) :
  prefixes (l ++ [a]) = prefixes l ++ [l ++ [a]].
Proof.
  induction l as [|b l IH]; [reflexivity|].
  cbn. rewrite IH, map_app. reflexivity.
Qed.

(** Two states with the same tool, colour and width setting, the second
    of which was styled from the first, give the same pen. *)
Lemma styled_pen_again s t :
  currentTool t = currentTool s -> color t = color s -> lineWidth t = lineWidth s ->
  pen (ctx t) = pen (ctx (styled s)) ->
  pen (ctx (styled t)) = pen (ctx (styled s)).
Proof.
  intros Ht Hc Hw Hp. rewrite (styled_pen t). unfold pen_after at 1.
  rewrite Ht, Hc, Hw, Hp, (styled_pen s). unfold pen_after. cbn.
  rewrite width_after_twice, assign_style_twice. reflexivity.
Qed.

Lemma freehand_move_path rect e t :
  path (ctx (with_ctx stroke
               (with_ctx (lineTo (x (cursor rect e)) (y (cursor rect e))) t))) =
  path (ctx t) ++ [LineTo (cursor rect e)].
Proof. reflexivity. Qed.

Lemma startDrawing_freehand rect e s :
  is_freehand (currentTool s) = true ->
  step s (mousedown rect e) =
  with_ctx (moveTo (x (cursor rect e)) (y (cursor rect e)))
    (with_ctx beginPath
       (set_startPoint (Some (cursor rect e)) (set_isDrawing true s))).
Proof.
  intros Ht. js_unfold. cbn -[is_freehand]. rewrite Ht. reflexivity.
Qed.

(** X8.  A freehand gesture (pencil or eraser).  Pointer down opens a new
    path at the anchor; each pointer move adds a line to the cursor and
    strokes the whole path again from the anchor, in the same pen.  So after
    n moves the path is the polyline through the anchor and the n cursor
    positions, and n strokes have been painted, the k-th over the first k
    segments.  Nothing is committed and no restore is started on the way. *)
Theorem freehand_gesture
  (s : App) (Ht : is_freehand (currentTool s) = true)
  (rect0 : DOMRect) (e0 : MouseEvent) (ms : list (DOMRect * MouseEvent)) :
  let anchor := cursor rect0 e0 in
  let pts := map (fun m => cursor (fst m) (snd m)) ms in
  let s' := run (mousedown rect0 e0 ::
                 map (fun m => mousemove (fst m) (snd m)) ms) s in
  path (ctx s') = MoveTo anchor :: map LineTo pts /\
  paints (surface s') =
    paints (surface s) ++
    map (fun pre => StrokePath (MoveTo anchor :: map LineTo pre)
                      (pen (ctx (styled s))))
        (prefixes pts) /\
  history s' = history s /\ redoStack s' = redoStack s /\
  loading s' = loading s /\
  isDrawing s' = true /\ startPoint s' = Some anchor.
Proof.
  intros anchor pts s'. subst pts s'.
  enough (H :
    let s' := run (mousedown rect0 e0 ::
                   map (fun m => mousemove (fst m) (snd m)) ms) s in
    (path (ctx s') =
       MoveTo anchor :: map LineTo (map (fun m => cursor (fst m) (snd m)) ms) /\
     paints (surface s') =
       paints (surface s) ++
       map (fun pre => StrokePath (MoveTo anchor :: map LineTo pre)
                         (pen (ctx (styled s))))
           (prefixes (map (fun m => cursor (fst m) (snd m)) ms)) /\
     history s' = history s /\ redoStack s' = redoStack s /\
     loading s' = loading s /\
     isDrawing s' = true /\ startPoint s' = Some anchor) /\
    currentTool s' = currentTool s /\ color s' = color s /\
    lineWidth s' = lineWidth s /\
    (ms = [] -> pen (ctx s') = pen (ctx s)) /\
    (ms <> [] -> pen (ctx s') = pen (ctx (styled s)))) by apply H.
  induction ms as [|m ms IH] using rev_ind.
  - cbn [map run fold_left prefixes]. rewrite (startDrawing_freehand rect0 e0 s Ht).
    cbn. rewrite app_nil_r. repeat split; congruence.
  - cbv zeta. rewrite !map_app. cbn [map]. rewrite app_comm_cons, run_snoc.
    set (t := run (mousedown rect0 e0 ::
                   map (fun m => mousemove (fst m) (snd m)) ms) s) in *.
    cbv zeta in IH.
    destruct IH as ((Hpath & Hpaints & Hh & Hr & Hl & Hd & Ha)
                    & Htool & Hcol & Hw & Hpen0 & Hpen1).
    assert (Hstyle : pen (ctx (styled t)) = pen (ctx (styled s))).
    { destruct ms as [|m' ms'].
      - rewrite (styled_pen t), (styled_pen s). unfold pen_after.
        rewrite Htool, Hcol, Hw, (Hpen0 eq_refl). reflexivity.
      - apply styled_pen_again; auto. apply Hpen1; discriminate. }
    rewrite (draw_freehand (fst m) (snd m) t Hd) by (rewrite Htool; exact Ht).
    rewrite prefixes_snoc, map_app. cbn [map].
    split; [|split; [exact Htool|split; [exact Hcol|split; [exact Hw|]]]].
    + split.
      { rewrite freehand_move_path, styled_path, Hpath. reflexivity. }
      split.
      { rewrite stroke_surface, lineTo_surface, styled_surface, Hpaints.
        rewrite <- app_assoc. do 2 f_equal.
        change (path (ctx (with_ctx (lineTo (x (cursor (fst m) (snd m)))
                                            (y (cursor (fst m) (snd m))))
                             (styled t))))
          with (path (ctx (styled t)) ++ [LineTo (cursor (fst m) (snd m))]).
        change (pen (ctx (with_ctx (lineTo (x (cursor (fst m) (snd m)))
                                           (y (cursor (fst m) (snd m))))
                            (styled t))))
          with (pen (ctx (styled t))).
        rewrite styled_path, Hpath, Hstyle, map_app. reflexivity. }
      repeat split; assumption.
    + split; [intros E; destruct ms; discriminate E|].
      intros _. cbn. exact Hstyle.
Qed.

Lemma freehand_gesture_witness :
  path (ctx (run [mousedown origin (mkMouse 1 2); mousemove origin (mkMouse 3 4);
                  mousemove origin (mkMouse 5 6)] constructor)) =
  [MoveTo (cursor origin (mkMouse 1 2)); LineTo (cursor origin (mkMouse 3 4));
   LineTo (cursor origin (mkMouse 5 6))] /\
  List.length
    (paints (surface (run [mousedown origin (mkMouse 1 2); mousemove origin (mkMouse 3 4);
                           mousemove origin (mkMouse 5 6)] constructor))) = 2%nat.
Proof.
  destruct (freehand_gesture constructor eq_refl origin (mkMouse 1 2)
              [(origin, mkMouse 3 4); (origin, mkMouse 5 6)])
    as (Hpath & Hpaints & _).
  split; [exact Hpath|].
  exact (f_equal (@List.length Paint) Hpaints).
Defined.

(** ** What a pointer move paints, and with which pen *)

Lemma move_pen rect e s :
  Inv s -> isDrawing s = true ->
  exists p,
    paints (surface (step s (mousemove rect e))) = paints (surface s) ++ [p] /\
    pen_of p = pen (ctx (styled s)).
Proof.
  intros [_ [b Hb] Ha _] Hd. destruct (Ha Hd) as [a Hp].
  destruct b; cbn [tool_of] in Hb.
  - rewrite draw_freehand by (rewrite ?Hb; auto).
    eexists; split;
      [rewrite stroke_surface, lineTo_surface, styled_surface; reflexivity
      | reflexivity].
  - rewrite draw_freehand by (rewrite ?Hb; auto).
    eexists; split;
      [rewrite stroke_surface, lineTo_surface, styled_surface; reflexivity
      | reflexivity].
  - rewrite (draw_rectangle rect e s a Hd Hb Hp).
    eexists; split;
      [rewrite strokeRect_surface, beginPath_surface, restoreLastState_surface,
         styled_surface; reflexivity
      | cbn [pen_of]; change (pen (ctx (with_ctx beginPath ?t))) with (pen (ctx t));
        rewrite restoreLastState_ctx; reflexivity].
  - rewrite (draw_square rect e s a Hd Hb Hp). cbv zeta.
    eexists; split;
      [rewrite strokeRect_surface, beginPath_surface, restoreLastState_surface,
         styled_surface; reflexivity
      | cbn [pen_of]; change (pen (ctx (with_ctx beginPath ?t))) with (pen (ctx t));
        rewrite restoreLastState_ctx; reflexivity].
  - rewrite (draw_circle rect e s a Hd Hb Hp). cbv zeta.
    eexists; split;
      [rewrite stroke_surface, arc_surface, beginPath_surface,
         restoreLastState_surface, styled_surface; reflexivity
      | cbn [pen_of];
        change (pen (ctx (with_ctx (arc ?a1 ?a2 ?a3 ?a4 ?a5) (with_ctx beginPath ?t))))
          with (pen (ctx t));
        rewrite restoreLastState_ctx; reflexivity].
Qed.

(** X9.  The pen of a stroke.  In a reachable state with a gesture active,
    a pointer move paints exactly one stroke.  Under the eraser its colour
    is white, whatever colour is selected.  Under any other tool the
    selected colour is assigned over the colour the context held: the stroke
    has the selected colour when that is written #rrggbb, and a string the
    context cannot parse leaves the colour the context held.  Its caps are
    round.  Its width is the selected width when that is a positive number
    and otherwise (NaN, an infinity, zero, negative) the width the context
    had before. *)
Theorem stroke_pen (s : App) (Hs : reachable s) (Hd : isDrawing s = true)
  (rect : DOMRect) (e : MouseEvent) :
  exists p,
    paints (surface (step s (mousemove rect e))) = paints (surface s) ++ [p] /\
    ((currentTool s =? "eraser")%string = true ->
     strokeStyle (pen_of p) = Colour "white") /\
    ((currentTool s =? "eraser")%string = false ->
     strokeStyle (pen_of p) =
       assign_style (color s) (strokeStyle (pen (ctx s))) /\
     (surely_a_color (color s) = true ->
      strokeStyle (pen_of p) = Colour (color s))) /\
    lineCap (pen_of p) = "round" /\
    Canvas.lineWidth (pen_of p) =
      width_after (lineWidth s) (Canvas.lineWidth (pen (ctx s))).
Proof.
  destruct (move_pen rect e s (reachable_Inv s Hs) Hd) as (p & Hp & Hpen).
  exists p. split; [exact Hp|].
  rewrite Hpen, styled_pen. unfold pen_after. cbn [strokeStyle lineCap Canvas.lineWidth].
  split; [intros ->; reflexivity|].
  split; [|split; reflexivity].
  intros ->. split; [reflexivity|].
  intros Hc. unfold assign_style. rewrite Hc. reflexivity.
Qed.

Lemma stroke_pen_witness :
  (exists p,
    paints (surface
      (step (run [change_color "#ff0000"; change_lineWidth None;
                  click_tool eraserTool; mousedown origin (mkMouse 0 0)] constructor)
            (mousemove origin (mkMouse 4 4)))) = [p] /\
    strokeStyle (pen_of p) = Colour "white" /\
    Canvas.lineWidth (pen_of p) = 1%Z) /\
  (exists p,
    paints (surface
      (step (run [change_color "#ff0000"; mousedown origin (mkMouse 0 0)] constructor)
            (mousemove origin (mkMouse 4 4)))) = [p] /\
    strokeStyle (pen_of p) = Colour "#ff0000").
Proof.
  split.
  - destruct (stroke_pen
                (run [change_color "#ff0000"; change_lineWidth None;
                      click_tool eraserTool; mousedown origin (mkMouse 0 0)] constructor)
                (reachable_run _ _ reach_constructor) eq_refl
                origin (mkMouse 4 4)) as (p & Hp & Hc & _ & _ & Hw).
    exists p. split; [exact Hp|]. split; [exact (Hc eq_refl) | exact Hw].
  - destruct (stroke_pen
                (run [change_color "#ff0000"; mousedown origin (mkMouse 0 0)] constructor)
                (reachable_run _ _ reach_constructor) eq_refl
                origin (mkMouse 4 4)) as (p & Hp & _ & Hc & _).
    exists p. split; [exact Hp|].
    destruct (Hc eq_refl) as [_ Hhex]. exact (Hhex eq_refl).
Defined.

(** X10.  The rectangle tool.  A pointer move strokes one rectangle with
    the anchor as a corner and the cursor as the opposite corner. *)
Theorem rectangle_tool_corners
  (s : App) (rect : DOMRect) (e : MouseEvent) (a : Point)
  (Hd : isDrawing s = true) (Ht : currentTool s = "rectangle")
  (Ha : startPoint s = Some a) :
  exists w h,
    paints (surface (step s (mousemove rect e))) =
      paints (surface s) ++ [StrokeRect (x a) (y a) w h (pen (ctx (styled s)))] /\
    x a + w = x (cursor rect e) /\
    y a + h = y (cursor rect e).
Proof.
  destruct (rectangle_preview_paints_over rect e s a Hd Ht Ha) as [Hp _].
  eexists; eexists. split; [exact Hp|]. split; lra.
Qed.

Lemma rectangle_tool_corners_witness :
  exists w h,
    paints (surface
      (step (run [click_tool rectangleTool; mousedown origin (mkMouse 2 3)] constructor)
            (mousemove origin (mkMouse 7 1)))) =
    [StrokeRect (2 - 0) (3 - 0) w h (mkPen (Colour "#000000") 5 "round")] /\
    (2 - 0) + w = 7 - 0 /\ (3 - 0) + h = 1 - 0.
Proof.
  destruct (rectangle_tool_corners
              (run [click_tool rectangleTool; mousedown origin (mkMouse 2 3)] constructor)
              origin (mkMouse 7 1) (mkPoint (2 - 0) (3 - 0))
              eq_refl eq_refl eq_refl) as (w & h & Hp & Hx & Hy).
  exists w, h. split; [exact Hp|]. split; [exact Hx | exact Hy].
Defined.

(** ** Shape previews and their restore *)

Lemma shape_move_loading rect e s :
  Inv s -> isDrawing s = true -> is_shape (currentTool s) = true ->
  loading (step s (mousemove rect e)) = loading s ++ [last (history s) undefined].
Proof.
  intros [[rest Hh] [b Hb] Ha _] Hd Hshape. destruct (Ha Hd) as [a Hp].
  assert (Hr : loading (after restoreLastState (styled s)) =
               loading s ++ [last (history s) undefined]).
  { unfold after. rewrite restoreLastState_eq.
    change (history (styled s)) with (history s).
    change (loading (styled s)) with (loading s).
    rewrite Hh. reflexivity. }
  rewrite Hb in Hshape.
  destruct b; cbn [tool_of] in Hb; try discriminate Hshape.
  - rewrite (draw_rectangle rect e s a Hd Hb Hp). exact Hr.
  - rewrite (draw_square rect e s a Hd Hb Hp). exact Hr.
  - rewrite (draw_circle rect e s a Hd Hb Hp). exact Hr.
Qed.

(** X11.  A shape preview and its restore.  In a reachable state with a
    gesture of the rectangle, square or circle tool active, a pointer move
    strokes the shape over the canvas as it is and starts a restore of the
    top of [history]; the stacks do not change.  When the restores on their
    way have completed, in the order started, the canvas shows the top of
    [history]: the shape just stroked is no longer on it. *)
Theorem preview_erased_by_its_restore
  (s : App) (Hs : reachable s) (Hd : isDrawing s = true)
  (Ht : is_shape (currentTool s) = true) (rect : DOMRect) (e : MouseEvent) :
  let s1 := step s (mousemove rect e) in
  (exists p, paints (surface s1) = paints (surface s) ++ [p]) /\
  loading s1 = loading s ++ [last (history s) undefined] /\
  history s1 = history s /\ redoStack s1 = redoStack s /\
  surface (settle s1) = decode (last (history s) undefined).
Proof.
  intros s1. pose proof (reachable_Inv s Hs) as HI.
  destruct (move_painted rect e s HI Hd) as (p & Hp & _).
  pose proof (shape_move_loading rect e s HI Hd Ht) as Hl.
  destruct (fields_inv _ _ (draw_fields rect e s)) as (_&_&_&_&_&Hh&Hr&_).
  split; [exists p; exact Hp|]. split; [exact Hl|].
  split; [exact Hh|]. split; [exact Hr|].
  apply (settle_surface s1 (loading s)). exact Hl.
Qed.

Lemma preview_erased_by_its_restore_witness :
  surface (settle
    (step (run [click_tool circleTool; mousedown origin (mkMouse 5 5)] constructor)
          (mousemove origin (mkMouse 8 9)))) = decode blank.
Proof.
  destruct (preview_erased_by_its_restore
              (run [click_tool circleTool; mousedown origin (mkMouse 5 5)] constructor)
              (reachable_run _ _ reach_constructor) eq_refl eq_refl
              origin (mkMouse 8 9)) as (_ & _ & _ & _ & Hs).
  exact Hs.
Defined.

(** ** The tool buttons *)

Lemma In_classList_remove c tok cl :
  In c (classList_remove tok cl) <-> In c cl /\ c <> tok.
Proof.
  unfold classList_remove. rewrite filter_In, negb_true_iff, String.eqb_neq.
  reflexivity.
Qed.

Lemma In_classList_add c tok cl :
  In c (classList_add tok cl) <-> c = tok \/ In c cl.
Proof.
  unfold classList_add. destruct (existsb (String.eqb tok) cl) eqn:E.
  - apply existsb_exists in E as (u & Hu & Eu). apply String.eqb_eq in Eu. subst u.
    split; [auto | intros [->|H]; assumption].
  - rewrite in_app_iff. cbn. split; [intros [H|[H|[]]]; auto | intros [->|H]; auto].
Qed.

Ltac lookup_buttons doc H :=
  pose proof (H pencilTool) as Hb1; pose proof (H eraserTool) as Hb2;
  pose proof (H rectangleTool) as Hb3; pose proof (H squareTool) as Hb4;
  pose proof (H circleTool) as Hb5;
  cbn in Hb1, Hb2, Hb3, Hb4, Hb5;
  destruct (doc "pencilTool") as [c1|] eqn:E1; [|congruence];
  destruct (doc "eraserTool") as [c2|] eqn:E2; [|congruence];
  destruct (doc "rectangleTool") as [c3|] eqn:E3; [|congruence];
  destruct (doc "squareTool") as [c4|] eqn:E4; [|congruence];
  destruct (doc "circleTool") as [c5|] eqn:E5; [|congruence];
  clear Hb1 Hb2 Hb3 Hb4 Hb5.

Lemma remove_active_buttons (doc : Document) :
  has_tool_buttons doc ->
  exists d,
    remove_active ["pencil"; "eraser"; "rectangle"; "square"; "circle"] doc
      = (Normal tt, d) /\
    (forall b, exists cl,
        doc (button_id (tool_of b)) = Some cl /\
        d (button_id (tool_of b)) = Some (classList_remove "active" cl)) /\
    (forall id, (forall b, id <> button_id (tool_of b)) -> d id = doc id).
Proof.
  intros H. lookup_buttons doc H.
  unfold remove_active, on_element, button_id. cbn -[classList_remove].
  rewrite E1. cbn -[classList_remove]. rewrite E2. cbn -[classList_remove].
  rewrite E3. cbn -[classList_remove]. rewrite E4. cbn -[classList_remove].
  rewrite E5.
  eexists. split; [reflexivity|]. split.
  - intros b. destruct b; cbn -[classList_remove]; eexists; split; eauto.
  - intros id Hid.
    pose proof (Hid pencilTool) as N1. pose proof (Hid eraserTool) as N2.
    pose proof (Hid rectangleTool) as N3. pose proof (Hid squareTool) as N4.
    pose proof (Hid circleTool) as N5.
    cbn in N1, N2, N3, N4, N5.
    apply String.eqb_neq in N1, N2, N3, N4, N5.
    cbn -[classList_remove String.eqb]. rewrite N1, N2, N3, N4, N5. reflexivity.
Qed.

Lemma button_id_inj b b' :
  button_id (tool_of b) = button_id (tool_of b') -> b = b'.
Proof. destruct b, b'; cbn; intros H; try reflexivity; discriminate H. Qed.

(** X12.  Selecting a tool moves the highlight.  On a page that has the
    five tool buttons, [setTool] of one of the five tools completes, sets the
    current tool, and leaves the class [active] on the button of that tool
    and on no other tool button, whichever buttons carried it before.  The
    other classes of the buttons and the other elements of the page are
    untouched. *)
Theorem setTool_highlights_one
  (doc : Document) (Hdoc : has_tool_buttons doc) (s : App) (b : ToolButton) :
  exists doc',
    setTool_page (tool_of b) (doc, s) =
      (Normal tt, (doc', set_currentTool (tool_of b) s)) /\
    (forall b', exists cl cl',
        doc (button_id (tool_of b')) = Some cl /\
        doc' (button_id (tool_of b')) = Some cl' /\
        (In "active" cl' <-> b' = b) /\
        (forall c, c <> "active" -> (In c cl' <-> In c cl))) /\
    (forall id, (forall b', id <> button_id (tool_of b')) -> doc' id = doc id).
Proof.
  destruct (remove_active_buttons doc Hdoc) as (d & Hd & Hbtn & Hrest).
  unfold setTool_page. cbn [fst snd]. rewrite Hd.
  destruct (Hbtn b) as (clb & Hclb & Hdb).
  unfold on_element. rewrite Hdb.
  eexists. split; [reflexivity|]. split.
  - intros b'. destruct (Hbtn b') as (cl & Hcl & Hd').
    destruct (String.eqb_spec (button_id (tool_of b')) (button_id (tool_of b)))
      as [E|N].
    + apply button_id_inj in E. subst b'.
      exists cl, (classList_add "active" (classList_remove "active" clb)).
      split; [exact Hcl|]. split; [reflexivity|].
      assert (clb = cl) by congruence. subst clb.
      split.
      * rewrite In_classList_add. split; auto.
      * intros c Hc. rewrite In_classList_add, In_classList_remove.
        split; [intros [E|[H _]]; [contradiction | exact H] | auto].
    + exists cl, (classList_remove "active" cl).
      split; [exact Hcl|]. split; [exact Hd'|].
      split.
      * rewrite In_classList_remove.
        split; [intros [_ N']; contradiction | intros ->; contradiction].
      * intros c Hc. rewrite In_classList_remove. split; [intros [H _]; exact H | auto].
  - intros id Hid.
    destruct (String.eqb_spec id (button_id (tool_of b))) as [E|N];
      [exfalso; exact (Hid b E) | apply Hrest, Hid].
Qed.

Lemma setTool_highlights_one_witness :
  exists doc',
    setTool_page "circle"
      ((fun id => if (id =? "canvasTitle")%string then None
                  else Some ["btn"; "active"]), constructor) =
      (Normal tt, (doc', set_currentTool "circle" constructor)) /\
    doc' "circleTool" = Some ["btn"; "active"] /\
    doc' "pencilTool" = Some ["btn"].
Proof.
  destruct (setTool_highlights_one
              (fun id => if (id =? "canvasTitle")%string then None
                         else Some ["btn"; "active"])
              (fun b => ltac:(destruct b; discriminate))
              constructor circleTool) as (doc' & Hrun & _).
  exists doc'. split; [exact Hrun|].
  cbv in Hrun. injection Hrun as <-. split; reflexivity.
Defined.

(** X13.  [setTool] with a name that has no button.  On a page with the
    five tool buttons, [setTool(tool)] for a [tool] without an element
    [`${tool}Tool`] throws a TypeError; by then the current tool is [tool]
    already and no tool button carries [active] any more. *)
Theorem setTool_unknown_tool
  (doc : Document) (Hdoc : has_tool_buttons doc) (s : App) (tool : string)
  (Hnone : doc (button_id tool) = None) :
  exists doc',
    setTool_page tool (doc, s) =
      (Throw "TypeError", (doc', set_currentTool tool s)) /\
    (forall b' cl', doc' (button_id (tool_of b')) = Some cl' -> ~ In "active" cl') /\
    includes drawing_tools tool = false.
Proof.
  destruct (remove_active_buttons doc Hdoc) as (d & Hd & Hbtn & Hrest).
  assert (Hnot : forall b, button_id tool <> button_id (tool_of b)).
  { intros b E. apply (Hdoc b). rewrite <- E. exact Hnone. }
  unfold setTool_page. cbn [fst snd]. rewrite Hd.
  unfold on_element. rewrite (Hrest _ Hnot), Hnone.
  exists d. split; [reflexivity|]. split.
  - intros b' cl' Hcl'. destruct (Hbtn b') as (cl & _ & Hd').
    rewrite Hd' in Hcl'. injection Hcl' as <-.
    rewrite In_classList_remove. intros [_ N]. apply N; reflexivity.
  - unfold includes, drawing_tools. cbn [existsb].
    pose proof (Hnot pencilTool) as N1. pose proof (Hnot eraserTool) as N2.
    pose proof (Hnot rectangleTool) as N3. pose proof (Hnot squareTool) as N4.
    pose proof (Hnot circleTool) as N5.
    assert (Hne : forall t, button_id tool <> button_id t -> (tool =? t)%string = false).
    { intros t N. apply String.eqb_neq. intros ->. apply N; reflexivity. }
    rewrite (Hne "pencil" N1), (Hne "eraser" N2), (Hne "rectangle" N3),
      (Hne "square" N4), (Hne "circle" N5). reflexivity.
Qed.

Lemma setTool_unknown_tool_witness :
  exists doc',
    setTool_page "line"
      ((fun id => if (id =? "lineTool")%string then None
                  else Some ["active"]), constructor) =
      (Throw "TypeError", (doc', set_currentTool "line" constructor)).
Proof.
  destruct (setTool_unknown_tool
              (fun id => if (id =? "lineTool")%string then None else Some ["active"])
              (fun b => ltac:(destruct b; discriminate))
              constructor "line" eq_refl) as (doc' & Hrun & _).
  exists doc'. exact Hrun.
Defined.

(** ** A tool that is not one of the five *)

Lemma not_a_drawing_tool tool :
  includes drawing_tools tool = false ->
  is_freehand tool = false /\ (tool =? "rectangle")%string = false /\
  (tool =? "square")%string = false /\ (tool =? "circle")%string = false.
Proof.
  unfold includes, drawing_tools, is_freehand. cbn [existsb].
  destruct (tool =? "pencil")%string, (tool =? "eraser")%string,
    (tool =? "rectangle")%string, (tool =? "square")%string,
    (tool =? "circle")%string; cbn; intros H; try discriminate H; auto.
Qed.

(** X14.  Under a current tool that is not one of the five (which no button
    selects), a pointer move paints nothing and starts no restore, and the
    end of a gesture clears the flag and the anchor without pushing a
    snapshot. *)
Theorem gesture_with_unknown_tool
  (s : App) (Ht : includes drawing_tools (currentTool s) = false) :
  (forall rect e,
     surface (step s (mousemove rect e)) = surface s /\
     loading (step s (mousemove rect e)) = loading s /\
     fields (step s (mousemove rect e)) = fields s) /\
  (isDrawing s = true ->
   history (step s mouseup) = history s /\
   redoStack (step s mouseup) = redoStack s /\
   isDrawing (step s mouseup) = false /\
   startPoint (step s mouseup) = None).
Proof.
  destruct (not_a_drawing_tool _ Ht) as (H1 & H2 & H3 & H4).
  split.
  - intros rect e. split; [|split; [|apply draw_fields]].
    + destruct (isDrawing s) eqn:Hd;
        [|unfold step, after; cbn [handle]; rewrite draw_idle by exact Hd; reflexivity].
      js_unfold. rewrite Hd. cbn -[is_freehand]. rewrite H1, H2, H3, H4.
      cbn. fold (surface (styled s)). unfold surface, Canvas.set_lineWidth.
      destruct (lineWidth s) as [w|]; [destruct (0 <? w)%Z|]; reflexivity.
    + destruct (isDrawing s) eqn:Hd;
        [|unfold step, after; cbn [handle]; rewrite draw_idle by exact Hd; reflexivity].
      js_unfold. rewrite Hd. cbn -[is_freehand]. rewrite H1, H2, H3, H4.
      reflexivity.
  - intros Hd. unfold step, after. cbn [handle].
    rewrite (stopDrawing_foreign s Hd Ht). repeat split; reflexivity.
Qed.

Lemma gesture_with_unknown_tool_witness :
  history (step (run [mousedown origin (mkMouse 0 0)]
                   (set_currentTool "line" constructor)) mouseup) = [blank] /\
  isDrawing (step (run [mousedown origin (mkMouse 0 0)]
                     (set_currentTool "line" constructor)) mouseup) = false.
Proof.
  destruct (gesture_with_unknown_tool
              (run [mousedown origin (mkMouse 0 0)] (set_currentTool "line" constructor))
              eq_refl) as [_ Hup].
  destruct (Hup eq_refl) as (Hh & _ & Hd & _).
  split; [exact Hh | exact Hd].
Defined.
